(** * Push-up analyzer: rep state machine, frame pipeline and session loop

    A shallow embedding of [process_pushup.py] (the rep state machine
    [update_feedback_and_count] and the frame pipeline [process_frame]) and
    of the receive/decode/process/encode/send loop of
    [websocket_live_stream] in [main.py].

    Numbers.  Joint angles and the rep count are Python numbers (the count
    starts as the integer 0 and grows by the literal 0.5).  They are
    embedded as rationals [Q]: the comparisons against 40, 90 and 160 and
    the additions of one half are then exact, as they are on binary64
    values of the magnitudes a session can reach (multiples of 0.5 below
    2^52).  Module [Float64] repeats the state machine with the binary64
    rounding of [count += 0.5] written out, for the properties that
    depend on it; the two agree on the counts of a session
    ([Float64Facts.binary64_agrees]).  Infinities and NaN are outside the
    model.  [direction] and [form] are Python integers, embedded as [Z].

    External collaborators (pose detector, image codec, socket) are not
    computed: what they did on a given frame is an input of the model. *)

From Stdlib Require Import ZArith QArith Qround Qabs Bool List String Lia Lqa.
Import ListNotations.

Local Open Scope Q_scope.

(** ** Python number helpers *)

(** The float literal [0.5]. *)
Definition half : Q := 1 # 2.

(** Python's [int(x)] on a number: truncation toward zero. *)
Definition py_int (x : Q) : Z := Z.quot (Qnum x) (Zpos (Qden x)).

(** [a > b] and [a <= b] on Python numbers, as booleans. *)
Definition Qgtb (a b : Q) : bool := negb (Qle_bool a b).
Definition Qleb (a b : Q) : bool := Qle_bool a b.

(** [a != b] on Python numbers (numeric comparison). *)
Definition Qneb (a b : Q) : bool := negb (Qeq_bool a b).

(** ** [process_pushup.py]: the rep state machine *)

Module Pushup.

Local Open Scope string_scope.

(** The two posture tests that the source spells out inline. *)
Definition posture_valid (elbow shoulder hip : Q) : bool :=
  Qgtb elbow 160 && Qgtb shoulder 40 && Qgtb hip 160.

Definition down_position (elbow hip : Q) : bool :=
  Qleb elbow 90 && Qgtb hip 160.

(** [update_feedback_and_count(elbow, shoulder, hip, direction, count, form)]
    returning [(feedback, count, direction, form)]. *)
Definition update_feedback_and_count
    (elbow shoulder hip : Q) (direction : Z) (count : Q) (form : Z)
  : string * Q * Z * Z :=
  let feedback := "Fix Form" in
  let form := if posture_valid elbow shoulder hip then 1%Z else form in
  if (form =? 1)%Z then
    if down_position elbow hip then
      let feedback := "Good - Push Up" in
      if (direction =? 0)%Z
      then (feedback, count + half, 1%Z, form)
      else (feedback, count, direction, form)
    else if posture_valid elbow shoulder hip then
      let feedback := "Good - Go Down" in
      if (direction =? 1)%Z
      then (feedback, count + half, 0%Z, form)
      else (feedback, count, direction, form)
    else ("Fix Form", count, direction, form)
  else ("Get into starting position", count, direction, form).

(** Projections of the returned tuple. *)
Definition fb_of (r : string * Q * Z * Z) : string := fst (fst (fst r)).
Definition count_of (r : string * Q * Z * Z) : Q := snd (fst (fst r)).
Definition dir_of (r : string * Q * Z * Z) : Z := snd (fst r).
Definition form_of (r : string * Q * Z * Z) : Z := snd r.

(** The value of [form] after the posture-valid check of lines 15-17. *)
Definition form_after_check (elbow shoulder hip : Q) (form : Z) : Z :=
  if posture_valid elbow shoulder hip then 1%Z else form.

(** The rep state [(count, direction, form)] threaded from one call to the
    next, as [process_frame] and the session loop do, over a sequence of
    angle triples [(elbow, shoulder, hip)]. *)
Definition rep_state : Type := (Q * Z * Z)%type.

Definition advance (st : rep_state) (angles : Q * Q * Q) : rep_state :=
  let '(count, direction, form) := st in
  let '(elbow, shoulder, hip) := angles in
  let r := update_feedback_and_count elbow shoulder hip direction count form in
  (count_of r, dir_of r, form_of r).

Definition feed (st : rep_state) (frames : list (Q * Q * Q)) : rep_state :=
  fold_left advance frames st.

(** An angle triple in the down position (line 21). *)
Definition is_down (a : Q * Q * Q) : Prop :=
  fst (fst a) <= 90 /\ 160 < snd a.

(** Three sample frames held in the down position. *)
Definition down_frames : list (Q * Q * Q) :=
  [(80, 50, 170); (85, 20, 165); (60, 50, 175)].

(** An angle triple in the up position (lines 16 and 27). *)
Definition is_up (a : Q * Q * Q) : Prop :=
  160 < fst (fst a) /\ 40 < snd (fst a) /\ 160 < snd a.

(** The frames of a series of repetitions: for each one a frame going
    down, then a frame coming up. *)
Definition rep_cycles (cycles : list ((Q * Q * Q) * (Q * Q * Q)))
  : list (Q * Q * Q) :=
  flat_map (fun p => [fst p; snd p]) cycles.

(** The rep state stands at [k] half reps: the count is [k] halves, the
    direction is the parity of [k], the form is a flag, and nothing has
    been counted while the form is still 0. *)
Definition half_reps (st : rep_state) (k : Z) : Prop :=
  let '(count, direction, form) := st in
  (0 <= k)%Z /\ count == inject_Z k * half /\ direction = (k mod 2)%Z /\
  (form = 0%Z \/ form = 1%Z) /\ (form = 0%Z -> k = 0%Z).

End Pushup.

(** ** The same state machine with binary64 counts

    In the running program [count] is a Python float, an IEEE 754 binary64
    number, and [count += 0.5] rounds its result to the nearest binary64
    number, ties to even.  The module below writes that rounding out over
    the finite binary64 values, seen as rationals; adding 0.5 to a finite
    binary64 number never overflows, so infinities do not arise.  NaN and
    infinite inputs are outside the model. *)

Module Float64.

Import Pushup.
Local Open Scope string_scope.

(** [2 ^ e] for any integer [e]. *)
Definition pow2 (e : Z) : Q :=
  if (0 <=? e)%Z then inject_Z (2 ^ e) else / inject_Z (2 ^ (- e)).

(** [floor (log2 x)] for [x > 0]. *)
Definition floor_log2 (x : Q) : Z :=
  if Qle_bool 1 x then Z.log2 (Qfloor x)
  else (- Z.log2_up (Qceiling (/ x)))%Z.

(** Rounding to the nearest integer, ties to the even one. *)
Definition round_half_even (y : Q) : Z :=
  let f := Qfloor y in
  match Qcompare (y - inject_Z f) half with
  | Lt => f
  | Gt => (f + 1)%Z
  | Eq => if Z.even f then f else (f + 1)%Z
  end.

(** The exponent of the last place of the binary64 numbers around [x]: 53
    significant bits, and never below the subnormal exponent -1074. *)
Definition exponent (x : Q) : Z :=
  Z.max (-1074) (floor_log2 (Qabs x) - 52).

(** The binary64 number nearest to [x], ties to even, for [x] within the
    finite range. *)
Definition round (x : Q) : Q :=
  if Qeq_bool x 0 then 0
  else inject_Z (round_half_even (x / pow2 (exponent x))) * pow2 (exponent x).

(** A rational that is a binary64 number: rounding leaves it alone. *)
Definition representable (x : Q) : Prop := round x == x.

(** [update_feedback_and_count] with the binary64 [count += 0.5]. *)
Definition update_feedback_and_count
    (elbow shoulder hip : Q) (direction : Z) (count : Q) (form : Z)
  : string * Q * Z * Z :=
  let feedback := "Fix Form" in
  let form := if posture_valid elbow shoulder hip then 1%Z else form in
  if (form =? 1)%Z then
    if down_position elbow hip then
      let feedback := "Good - Push Up" in
      if (direction =? 0)%Z
      then (feedback, round (count + half), 1%Z, form)
      else (feedback, count, direction, form)
    else if posture_valid elbow shoulder hip then
      let feedback := "Good - Go Down" in
      if (direction =? 1)%Z
      then (feedback, round (count + half), 0%Z, form)
      else (feedback, count, direction, form)
    else ("Fix Form", count, direction, form)
  else ("Get into starting position", count, direction, form).

(** The counts a session goes through: the non-negative multiples of one
    half below [2 ^ 52]. *)
Definition half_grid (count : Q) : Prop :=
  exists k : Z, (0 <= k < 2 ^ 53)%Z /\ count == inject_Z k * half.

End Float64.

(** ** [process_pushup.py]: overlay and frame pipeline *)

Module Pipeline.

Import Pushup.
Local Open Scope string_scope.

(** A decoded image: only its identity and its [size] attribute (number of
    array elements) matter to the control flow. *)
Record image : Type := mkImage { img_id : nat; img_size : N }.

(** One entry of [lmList]: landmark id and pixel coordinates. *)
Definition landmark : Type := (nat * Z * Z)%type.

(** What the three [detector.findAngle] calls (and the two [np.interp]
    calls and the state update that follow them inside the same [try]) did:
    an exception after zero, one or two angles had been assigned, or three
    angles and no exception. *)
Inductive angle_outcome : Type :=
| AnglesRaise0
| AnglesRaise1 (elbow : Q)
| AnglesRaise2 (elbow shoulder : Q)
| Angles (elbow shoulder hip : Q).

(** What the pose detector did on the private copy of the frame: an
    exception escaping to the outer handler of [process_frame] (with
    whether the "Error" caption could then be drawn on the original
    image), or a landmark list together with the angle computation. *)
Inductive pose_outcome : Type :=
| PoseRaises (caption_ok : bool)
| PoseLandmarks (lmList : list landmark) (angles : angle_outcome).

(** What [draw_ui] is asked to paint.  The gauge is drawn only when
    [form == 1]; numbers are shown through [int(...)]. *)
Record overlay : Type := mkOverlay {
  ov_gauge : option (Z * Z);      (* int(bar), int(per) *)
  ov_reps : Z;                    (* int(count) *)
  ov_feedback : string;
  ov_affirmative : bool;          (* green when form == 1, red otherwise *)
  ov_angles : Z * Z * Z           (* int(elbow), int(shoulder), int(hip) *)
}.

(** The image handed back by [process_frame]. *)
Inductive out_frame : Type :=
| ErrorCanvas (caption : string)             (* fresh 480x640 canvas *)
| Captioned (src : image) (caption : string) (* original image, captioned *)
| Rendered (src : image) (ui : overlay).     (* pose copy after [draw_ui] *)

(** [np.interp(x, (x0, x1), (f0, f1))] for [x0 < x1]: clamped linear
    interpolation, computed exactly; [np.interp] rounds in binary64, so
    only the clamped ends and the range of the result carry over. *)
Definition interp (x x0 x1 f0 f1 : Q) : Q :=
  if Qleb x x0 then f0
  else if Qleb x1 x then f1
  else f0 + (x - x0) * (f1 - f0) / (x1 - x0).

(** [draw_ui(img, per, bar, count, feedback, form, elbow, shoulder, hip)].
    Its body is wrapped in [try/except Exception]: it never raises, and
    the caller keeps the same buffer whatever happened inside. *)
Definition draw_ui (per bar count : Q) (feedback : string) (form : Z)
    (elbow_angle shoulder_angle hip_angle : Q) : overlay :=
  {| ov_gauge := if (form =? 1)%Z then Some (py_int bar, py_int per) else None;
     ov_reps := py_int count;
     ov_feedback := feedback;
     ov_affirmative := (form =? 1)%Z;
     ov_angles := (py_int elbow_angle, py_int shoulder_angle, py_int hip_angle) |}.

(** [img is None or img.size == 0]. *)
Definition invalid_image (img : option image) : bool :=
  match img with
  | None => true
  | Some im => (img_size im =? 0)%N
  end.

(** [process_frame(img, detector, count, direction, form)] returning
    [(processed_image, count, direction, form, feedback)]; the detector's
    behaviour on this frame is the argument [pose]. *)
Definition process_frame (img : option image) (pose : pose_outcome)
    (count : Q) (direction form : Z)
  : out_frame * Q * Z * Z * string :=
  let feedback := "Move into frame" in
  match img with
  | None => (ErrorCanvas "Invalid Frame", count, direction, form, feedback)
  | Some im =>
    if (img_size im =? 0)%N
    then (ErrorCanvas "Invalid Frame", count, direction, form, feedback)
    else
      match pose with
      | PoseRaises caption_ok =>
          let feedback := "Processing error" in
          if caption_ok
          then (Captioned im "Error", count, direction, form, feedback)
          else (ErrorCanvas "Error", count, direction, form, feedback)
      | PoseLandmarks lmList angles =>
          if negb (List.length lmList =? 0)%nat then
            match angles with
            | Angles elbow_angle shoulder_angle hip_angle =>
                let per := interp elbow_angle 90 160 0 100 in
                let bar := interp elbow_angle 90 160 380 50 in
                let '(feedback, count, direction, form) :=
                  update_feedback_and_count
                    elbow_angle shoulder_angle hip_angle direction count form in
                (Rendered im (draw_ui per bar count feedback form
                                elbow_angle shoulder_angle hip_angle),
                 count, direction, form, feedback)
            | AnglesRaise0 =>
                let feedback := "Error detecting pose" in
                (Rendered im (draw_ui 0 0 count feedback form 0 0 0),
                 count, direction, form, feedback)
            | AnglesRaise1 elbow_angle =>
                let feedback := "Error detecting pose" in
                (Rendered im (draw_ui 0 0 count feedback form elbow_angle 0 0),
                 count, direction, form, feedback)
            | AnglesRaise2 elbow_angle shoulder_angle =>
                let feedback := "Error detecting pose" in
                (Rendered im (draw_ui 0 0 count feedback form
                                elbow_angle shoulder_angle 0),
                 count, direction, form, feedback)
            end
          else
            let feedback := "Move into frame" in
            (Rendered im (draw_ui 0 0 count feedback form 0 0 0),
             count, direction, form, feedback)
      end
  end.

(** A sample decoded 640x480 colour frame. *)
Definition sample_image : image := {| img_id := 0; img_size := 921600 |}.

(** A label painted by [draw_ui]: the f-strings of lines 49, 54, 70, 72
    and 74 with the integer they print, or the feedback text. *)
Inductive label : Type :=
| Percent (n : Z)
| Reps (n : Z)
| Feedback (text : string)
| ElbowReadout (n : Z)
| ShoulderReadout (n : Z)
| HipReadout (n : Z).

(** Line thickness, or [cv2.FILLED]. *)
Inductive stroke : Type := Thick (n : Z) | Filled.

(** One [cv2] drawing call: a rectangle between two corners, or a text
    with the bottom-left corner of its first glyph. *)
Inductive draw_call : Type :=
| Rectangle (x1 y1 x2 y2 : Z) (colour : Z * Z * Z) (s : stroke)
| PutText (l : label) (x y : Z) (colour : Z * Z * Z) (thickness : Z).

(** The drawing calls of [draw_ui] (lines 42-75), in order, on an image of
    height [h] and width [w] when none of them raises; [text_width] is
    the width [cv2.getTextSize] reports for the feedback text. *)
Definition draw_ui_calls (h w text_width : Z) (per bar count : Q)
    (feedback : string) (form : Z)
    (elbow_angle shoulder_angle hip_angle : Q) : list draw_call :=
  let gauge :=
    if (form =? 1)%Z then
      let bar_x := (w - 40)%Z in
      [Rectangle bar_x 50 (bar_x + 20) 380 (0, 255, 0)%Z (Thick 3);
       Rectangle bar_x (py_int bar) (bar_x + 20) 380 (0, 255, 0)%Z Filled;
       PutText (Percent (py_int per)) (bar_x - 15) 430 (255, 0, 0)%Z 2]
    else [] in
  let feedback_color :=
    if (form =? 1)%Z then (0, 255, 0)%Z else (0, 0, 255)%Z in
  let text_x := ((w - text_width) / 2)%Z in
  let angle_text_y := (h - 120)%Z in
  gauge ++
  [Rectangle 10 (h - 100) 150 (h - 10) (0, 255, 0)%Z Filled;
   PutText (Reps (py_int count)) 20 (h - 50) (255, 255, 255)%Z 3;
   Rectangle (text_x - 10) 10 (text_x + text_width + 10) 60
             (255, 255, 255)%Z Filled;
   PutText (Feedback feedback) text_x 45 feedback_color 3;
   PutText (ElbowReadout (py_int elbow_angle)) 10 angle_text_y
           (255, 255, 255)%Z 2;
   PutText (ShoulderReadout (py_int shoulder_angle)) 10 (angle_text_y + 25)
           (255, 255, 255)%Z 2;
   PutText (HipReadout (py_int hip_angle)) 10 (angle_text_y + 50)
           (255, 255, 255)%Z 2].

(** The overlay of a frame handed back by [process_frame], if it went
    through [draw_ui]. *)
Definition overlay_of (f : out_frame) : option overlay :=
  match f with
  | Rendered _ ui => Some ui
  | _ => None
  end.

(** The pipeline reached the state machine: a usable image, a non-empty
    landmark list and three angles. *)
Definition reaches_update (img : option image) (pose : pose_outcome) : bool :=
  negb (invalid_image img) &&
  match pose with
  | PoseLandmarks lmList (Angles _ _ _) => negb (List.length lmList =? 0)%nat
  | _ => false
  end.

End Pipeline.

(** ** [main.py]: one connection of [websocket_live_stream] *)

Module Session.

Import Pushup Pipeline.
Local Open Scope Z_scope.

(** The per-connection variables initialised at lines 67-77. *)
Record session : Type := mkSession {
  count : Q;
  direction : Z;
  form : Z;
  frame_count : Z;
  error_count : Z;
  correct_reps : Z;
  incorrect_reps : Z
}.

Definition max_errors : Z := 10.

Definition initial : session :=
  {| count := 0%Q; direction := 0; form := 0; frame_count := 0;
     error_count := 0; correct_reps := 0; incorrect_reps := 0 |}.

(** What [cv2.imdecode] did with the received bytes. *)
Inductive decode_outcome : Type :=
| DecodeRaises
| DecodeReturns (frame : option image).

(** What [cv2.imencode] did with the processed image. *)
Inductive encode_outcome : Type :=
| EncodeRaises
| EncodeReturns (success : bool).

(** Everything the outside world contributes to one iteration of the
    [while True] loop. *)
Record frame_event : Type := mkEvent {
  ev_received : bool;          (* [receive_bytes] returned data *)
  ev_decode : decode_outcome;
  ev_pose : pose_outcome;
  ev_encode : encode_outcome;
  ev_send_bytes : bool;        (* [send_bytes] returned *)
  ev_send_text : bool          (* [send_text] returned *)
}.

(** The JSON record of lines 157-164, without its timestamp. *)
Record telemetry : Type := mkTelemetry {
  t_count : Z;
  t_feedback : string;
  t_form : Z;
  t_correct_reps : Z;
  t_incorrect_reps : Z
}.

(** A message that reached the client. *)
Inductive message : Type :=
| Binary (img : out_frame)
| Text (json_data : telemetry).

(** The three kinds of [break] in the loop: the receive handler (line
    91), the decode-error ceiling (lines 103 and 112) and the send handler
    (line 173). *)
Inductive exit : Type := ReceiveFailed | TooManyDecodeErrors | SendFailed.

(** How an iteration leaves the loop body: back to the top of the loop
    ([continue] or falling off the end), or out of it. *)
Inductive control : Type := Continue | Break (why : exit).

Definition result : Type := (session * list message * control)%type.

Definition res_session (r : result) : session := fst (fst r).
Definition res_sent (r : result) : list message := snd (fst r).
Definition res_control (r : result) : control := snd r.

Definition with_frame_count (s : session) (n : Z) : session :=
  {| count := count s; direction := direction s; form := form s;
     frame_count := n; error_count := error_count s;
     correct_reps := correct_reps s; incorrect_reps := incorrect_reps s |}.

Definition with_error_count (s : session) (n : Z) : session :=
  {| count := count s; direction := direction s; form := form s;
     frame_count := frame_count s; error_count := n;
     correct_reps := correct_reps s; incorrect_reps := incorrect_reps s |}.

(** Lines 98-104 and 108-113: a frame that could not be decoded. *)
Definition decode_failed (s : session) : result :=
  let s := with_error_count s (error_count s + 1) in
  if max_errors <=? error_count s
  then (s, [], Break TooManyDecodeErrors)
  else (s, [], Continue).

(** Lines 117-130: run the pipeline, tally, adopt the new rep state. *)
Definition process_stage (s : session) (frame : image) (pose : pose_outcome)
  : session * out_frame * string :=
  let '(processed_img, new_count, new_dir, new_form, feedback) :=
    process_frame (Some frame) pose (count s) (direction s) (form s) in
  let '(correct, incorrect) :=
    if Qneb new_count (count s) then
      if new_form =? 1
      then (correct_reps s + 1, incorrect_reps s)
      else (correct_reps s, incorrect_reps s + 1)
    else (correct_reps s, incorrect_reps s) in
  ({| count := new_count; direction := new_dir; form := new_form;
      frame_count := frame_count s; error_count := error_count s;
      correct_reps := correct; incorrect_reps := incorrect |},
   processed_img, feedback).

(** Lines 152-173: the binary frame, then the JSON text on every frame
    whose number is a multiple of ten. *)
Definition send_stage (s : session) (processed_img : out_frame)
    (feedback : string) (ev : frame_event) : result :=
  if ev_send_bytes ev then
    let json_data :=
      {| t_count := py_int (count s); t_feedback := feedback;
         t_form := form s; t_correct_reps := correct_reps s;
         t_incorrect_reps := incorrect_reps s |} in
    if frame_count s mod 10 =? 0 then
      if ev_send_text ev
      then (s, [Binary processed_img; Text json_data], Continue)
      else (s, [Binary processed_img], Break SendFailed)
    else (s, [Binary processed_img], Continue)
  else (s, [], Break SendFailed).

(** One iteration of the [while True] loop (lines 80-173).  The handler of
    lines 132-137 is not represented: [process_frame] catches every
    exception itself and is total here. *)
Definition loop_body (s : session) (ev : frame_event) : result :=
  if negb (ev_received ev) then (s, [], Break ReceiveFailed)
  else
    let s := with_frame_count s (frame_count s + 1) in
    match ev_decode ev with
    | DecodeRaises => decode_failed s
    | DecodeReturns frame =>
        match frame with
        | None => decode_failed s
        | Some im =>
            if (img_size im =? 0)%N then decode_failed s
            else
              let s := with_error_count s 0 in
              let '(s, processed_img, feedback) :=
                process_stage s im (ev_pose ev) in
              match ev_encode ev with
              | EncodeRaises => (s, [], Continue)
              | EncodeReturns success =>
                  if negb success then (s, [], Continue)
                  else send_stage s processed_img feedback ev
              end
        end
    end.

(** The iterations actually executed on a stream of events, in order: the
    loop stops at the first [Break]. *)
Fixpoint iterations (s : session) (evs : list frame_event) : list result :=
  match evs with
  | [] => []
  | ev :: rest =>
      let r := loop_body s ev in
      r :: match res_control r with
           | Break _ => []
           | Continue => iterations (res_session r) rest
           end
  end.

(** The session after a stream of events, and whether the loop was left. *)
Fixpoint run (s : session) (evs : list frame_event) : session * control :=
  match evs with
  | [] => (s, Continue)
  | ev :: rest =>
      let r := loop_body s ev in
      match res_control r with
      | Break why => (res_session r, Break why)
      | Continue => run (res_session r) rest
      end
  end.

(** Everything sent to the client over a stream of events. *)
Definition sent (s : session) (evs : list frame_event) : list message :=
  flat_map res_sent (iterations s evs).

(** The session with which the frame pipeline is entered on a decoded
    frame: frame counted, error counter cleared. *)
Definition entered_session (s : session) : session :=
  with_error_count (with_frame_count s (frame_count s + 1)) 0.

(** The session after [k] more received frames that all failed to
    decode: both counters moved by [k], nothing else touched. *)
Definition after_failures (s : session) (k : Z) : session :=
  with_error_count (with_frame_count s (frame_count s + k))
                   (error_count s + k).

(** Classification of an event by what happens to its frame. *)
Definition decode_fails (ev : frame_event) : bool :=
  ev_received ev &&
  match ev_decode ev with
  | DecodeRaises => true
  | DecodeReturns frame => invalid_image frame
  end.

Definition decode_ok (ev : frame_event) : bool :=
  ev_received ev &&
  match ev_decode ev with
  | DecodeRaises => false
  | DecodeReturns frame => negb (invalid_image frame)
  end.

(** A run of events whose frames all fail to decode. *)
Definition all_fail (evs : list frame_event) : Prop :=
  Forall (fun ev => decode_fails ev = true) evs.

Definition encode_ok (ev : frame_event) : bool :=
  match ev_encode ev with
  | EncodeRaises => false
  | EncodeReturns success => success
  end.

(** The frame went all the way: decoded, encoded, and both sends returned. *)
Definition delivered (ev : frame_event) : bool :=
  decode_ok ev && encode_ok ev && ev_send_bytes ev && ev_send_text ev.

Definition is_text (m : message) : bool :=
  match m with Text _ => true | Binary _ => false end.

(** A telemetry text message went out in this iteration. *)
Definition text_sent (r : result) : bool := existsb is_text (res_sent r).

(** One of the two tallies moved in going from [s] to [s']. *)
Definition tallied (s s' : session) : bool :=
  negb ((correct_reps s' =? correct_reps s) &&
        (incorrect_reps s' =? incorrect_reps s)).

(** The specification's reading of the tally condition: the whole-number
    part of the count advanced. *)
Definition spec_whole_part_advanced (old new : Q) : bool :=
  py_int old <? py_int new.

(** The specification's reading of the telemetry cadence: the running
    total of successfully processed frames, which decode-failed frames do
    not advance, is a multiple of ten at a frame that was itself
    processed. *)
Definition spec_processed_total (evs : list frame_event) : Z :=
  Z.of_nat (List.length (filter decode_ok evs)).

Definition spec_telemetry_due (evs : list frame_event) (n : nat) : bool :=
  match nth_error evs n with
  | Some ev =>
      decode_ok ev && (spec_processed_total (firstn (S n) evs) mod 10 =? 0)
  | None => false
  end.

(** Sample events: a frame that decodes and is delivered, with a pose at
    the given angles; and a frame whose bytes do not decode. *)
Definition good_frame (elbow shoulder hip : Q) : frame_event :=
  {| ev_received := true;
     ev_decode := DecodeReturns (Some sample_image);
     ev_pose := PoseLandmarks [(12%nat, 0, 0)] (Angles elbow shoulder hip);
     ev_encode := EncodeReturns true;
     ev_send_bytes := true;
     ev_send_text := true |}.

Definition corrupt_frame : frame_event :=
  {| ev_received := true;
     ev_decode := DecodeReturns None;
     ev_pose := PoseLandmarks [] AnglesRaise0;
     ev_encode := EncodeReturns true;
     ev_send_bytes := true;
     ev_send_text := true |}.

(** The session after one posture-valid frame: form 1, nothing counted. *)
Definition ready_session : session :=
  fst (run initial [good_frame 170 50 170]).

(** A corrupt frame followed by ten good ones. *)
Definition one_corrupt_then_ten : list frame_event :=
  corrupt_frame :: repeat (good_frame 100 50 170) 10.

Definition is_binary (m : message) : bool :=
  match m with Binary _ => true | Text _ => false end.

(** The binary frame of this iteration reached the client. *)
Definition frame_sent (ev : frame_event) : bool :=
  decode_ok ev && encode_ok ev && ev_send_bytes ev.

(** A session that has counted [k] half reps and is still in its loop:
    the rep state stands at [k] half reps, the correct tally holds [k], the
    incorrect tally is empty, and the error counter is below the ceiling. *)
Definition standing (s : session) (k : Z) : Prop :=
  half_reps (count s, direction s, form s) k /\
  correct_reps s = k /\ incorrect_reps s = 0 /\
  0 <= error_count s < max_errors.

(** How many telemetry records, and how many binary frames, a list of
    messages holds. *)
Definition texts (l : list message) : Z :=
  Z.of_nat (List.length (filter is_text l)).

Definition binaries (l : list message) : Z :=
  Z.of_nat (List.length (filter is_binary l)).

End Session.

(** * Properties *)

(** ** Comparisons on Python numbers *)

Lemma Qgtb_true (a b : Q) : Qgtb a b = true <-> b < a.
Proof.
  unfold Qgtb. rewrite negb_true_iff.
  split; intro H.
  - apply Qnot_le_lt. intro L. apply Qle_bool_iff in L. congruence.
  - destruct (Qle_bool a b) eqn:E; [|reflexivity].
    apply Qle_bool_iff in E. exfalso. apply (Qlt_not_le _ _ H E).
Qed.

Lemma Qgtb_false (a b : Q) : Qgtb a b = false <-> a <= b.
Proof.
  unfold Qgtb. rewrite negb_false_iff. apply Qle_bool_iff.
Qed.

Lemma Qleb_true (a b : Q) : Qleb a b = true <-> a <= b.
Proof. apply Qle_bool_iff. Qed.

Lemma Qneb_true (a b : Q) : Qneb a b = true <-> ~ a == b.
Proof.
  unfold Qneb. rewrite negb_true_iff. split; intro H.
  - intro E. apply Qeq_bool_iff in E. congruence.
  - destruct (Qeq_bool a b) eqn:E; [|reflexivity].
    apply Qeq_bool_iff in E. contradiction.
Qed.

Lemma Qneb_false (a b : Q) : Qneb a b = false <-> a == b.
Proof. unfold Qneb. rewrite negb_false_iff. apply Qeq_bool_iff. Qed.

Lemma half_changes (c : Q) : ~ c + half == c.
Proof. unfold half. intro H. lra. Qed.

(** On non-negative numbers [int] is the floor. *)
Lemma py_int_floor (x : Q) : 0 <= x -> py_int x = Qfloor x.
Proof.
  destruct x as [n d]. unfold py_int, Qfloor, Qle. cbn. intros H.
  apply Z.quot_div_nonneg; lia.
Qed.

Lemma py_int_range (lo hi : Z) (x : Q) :
  (0 <= lo)%Z -> inject_Z lo <= x -> x <= inject_Z hi ->
  (lo <= py_int x <= hi)%Z.
Proof.
  intros H0 Hlo Hhi.
  assert (Hx : 0 <= x).
  { apply Qle_trans with (inject_Z lo); [|exact Hlo].
    unfold Qle, inject_Z. cbn. lia. }
  rewrite (py_int_floor x Hx).
  split.
  - rewrite <- (Qfloor_Z lo). now apply Qfloor_resp_le.
  - rewrite <- (Qfloor_Z hi). now apply Qfloor_resp_le.
Qed.

(** [int] does not depend on how the number is written. *)
Lemma py_int_halves (x : Q) (k : Z) :
  (0 <= k)%Z -> x == inject_Z k * half -> py_int x = (k / 2)%Z.
Proof.
  intros Hk Hx.
  assert (H0 : 0 <= x).
  { rewrite Hx. unfold half, Qle, inject_Z. cbn. lia. }
  rewrite (py_int_floor x H0).
  assert (E : inject_Z k * half == inject_Z k / inject_Z 2).
  { unfold half. field. }
  rewrite E in Hx.
  transitivity (Qfloor (inject_Z k / inject_Z 2)).
  - apply Z.le_antisymm; apply Qfloor_resp_le; rewrite Hx; apply Qle_refl.
  - symmetry. apply Zdiv_Qdiv.
Qed.

(** ** The rep state machine *)

Module PushupFacts.

Import Pushup.
Local Open Scope string_scope.

Lemma posture_valid_true (e s h : Q) :
  posture_valid e s h = true <-> 160 < e /\ 40 < s /\ 160 < h.
Proof.
  unfold posture_valid. rewrite !andb_true_iff, !Qgtb_true. tauto.
Qed.

Lemma down_position_true (e h : Q) :
  down_position e h = true <-> e <= 90 /\ 160 < h.
Proof.
  unfold down_position. rewrite andb_true_iff, Qleb_true, Qgtb_true. tauto.
Qed.

Lemma posture_valid_false (e s h : Q) :
  posture_valid e s h = false <-> ~ (160 < e /\ 40 < s /\ 160 < h).
Proof.
  rewrite <- posture_valid_true. destruct (posture_valid e s h); split; congruence.
Qed.

Lemma down_position_false (e h : Q) :
  down_position e h = false <-> ~ (e <= 90 /\ 160 < h).
Proof.
  rewrite <- down_position_true. destruct (down_position e h); split; congruence.
Qed.

(** The two phases exclude each other: the elbow cannot be both at most 90
    and above 160. *)
Lemma down_excludes_up (e s h : Q) :
  down_position e h = true -> posture_valid e s h = false.
Proof.
  rewrite down_position_true, posture_valid_false. intros [H _] [H' _]. lra.
Qed.

(** Case analysis on the tests of [update_feedback_and_count]. *)
Ltac split_update :=
  unfold update_feedback_and_count, form_after_check,
         fb_of, count_of, dir_of, form_of in *;
  repeat match goal with
         | |- context [posture_valid ?e ?s ?h] =>
             let E := fresh "Eup" in destruct (posture_valid e s h) eqn:E
         | |- context [down_position ?e ?h] =>
             let E := fresh "Edown" in destruct (down_position e h) eqn:E
         | |- context [(?a =? ?b)%Z] =>
             let E := fresh "Ez" in destruct (Z.eqb_spec a b) as [E|E]
         end;
  cbn [fst snd] in *.




(** One call leaves the count alone or adds one half to it. *)
Lemma advance_count_cases (st : rep_state) (a : Q * Q * Q) :
  fst (fst (advance st a)) = fst (fst st) \/
  fst (fst (advance st a)) = fst (fst st) + half.
Proof.
  destruct st as [[c d] f], a as [[e s] h]. cbn [fst snd advance].
  split_update; auto.
Qed.

(** Threading the state: what one call does to the triple. *)
Lemma advance_form_sticky (st : rep_state) (a : Q * Q * Q) :
  snd st = 1%Z -> snd (advance st a) = 1%Z.
Proof.
  destruct st as [[c d] f], a as [[e s] h]. cbn [snd advance]. intros ->.
  split_update; congruence.
Qed.

Lemma feed_form_sticky (frames : list (Q * Q * Q)) :
  forall st : rep_state, snd st = 1%Z -> snd (feed st frames) = 1%Z.
Proof.
  unfold feed.
  induction frames as [|a frames IH]; intros st Hst; cbn [fold_left].
  - exact Hst.
  - apply IH. now apply advance_form_sticky.
Qed.

(** C5. The form flag is sticky.  A call whose input form is 1, or whose
    angles are posture-valid (elbow > 160, shoulder > 40, hip > 160),
    returns form 1; and after such a call the form is still 1 after any
    sequence of later calls, whatever their angles. *)
Theorem form_sticky (elbow shoulder hip : Q) (direction : Z) (count : Q)
    (form : Z) (later : list (Q * Q * Q)) :
  form = 1%Z \/ (160 < elbow /\ 40 < shoulder /\ 160 < hip) ->
  form_of (update_feedback_and_count elbow shoulder hip direction count form)
    = 1%Z /\
  snd (feed (advance (count, direction, form) (elbow, shoulder, hip)) later)
    = 1%Z.
Proof.
  intros H.
  assert (H1 : form_of (update_feedback_and_count
                          elbow shoulder hip direction count form) = 1%Z).
  { destruct H as [-> | H].
    - split_update; congruence.
    - apply posture_valid_true in H.
      unfold update_feedback_and_count, form_of. rewrite H.
      cbn [Z.eqb Pos.eqb].
      destruct (down_position elbow hip), (direction =? 0)%Z,
               (direction =? 1)%Z; reflexivity. }
  split; [exact H1|].
  apply feed_form_sticky. exact H1.
Qed.

Lemma form_sticky_witness :
  (160 < 170 /\ 40 < 50 /\ 160 < 170) /\
  form_of (update_feedback_and_count 170 50 170 0 0 0) = 1%Z /\
  snd (feed (advance (0, 0%Z, 0%Z) (170, 50, 170))
            [(10, 10, 10); (80, 50, 170); (120, 0, 30)]) = 1%Z.
Proof.
  assert (H : 160 < 170 /\ 40 < 50 /\ 160 < 170)
    by (unfold Qlt; cbn; repeat split; lia).
  split; [exact H|].
  apply (form_sticky 170 50 170 0 0 0). right. exact H.
Defined.



Lemma advance_down_armed (c : Q) (d : Z) (a : Q * Q * Q) :
  is_down a -> d <> 0%Z -> advance (c, d, 1%Z) a = (c, d, 1%Z).
Proof.
  destruct a as [[e s] h]. unfold is_down. cbn [fst snd]. intros Hd Hn.
  apply down_position_true in Hd.
  unfold advance, update_feedback_and_count, count_of, dir_of, form_of.
  rewrite (down_excludes_up e s h Hd), Hd. cbn [Z.eqb Pos.eqb].
  destruct (Z.eqb_spec d 0); [contradiction | reflexivity].
Qed.

Lemma advance_down_first (c : Q) (a : Q * Q * Q) :
  is_down a -> advance (c, 0%Z, 1%Z) a = (c + half, 1%Z, 1%Z).
Proof.
  destruct a as [[e s] h]. unfold is_down. cbn [fst snd]. intros Hd.
  apply down_position_true in Hd.
  unfold advance, update_feedback_and_count, count_of, dir_of, form_of.
  rewrite (down_excludes_up e s h Hd), Hd. reflexivity.
Qed.

Lemma feed_down_armed (frames : list (Q * Q * Q)) (c : Q) (d : Z) :
  Forall is_down frames -> d <> 0%Z ->
  feed (c, d, 1%Z) frames = (c, d, 1%Z).
Proof.
  unfold feed. induction 1 as [|a frames Ha _ IH]; intros Hd; cbn [fold_left].
  - reflexivity.
  - rewrite (advance_down_armed c d a Ha Hd). now apply IH.
Qed.








(** The worked example of a full repetition: from count 0, direction 0,
    form 1, one frame down and one frame up give count 1 and direction 0. *)
Example full_rep :
  feed (0, 0%Z, 1%Z) [(80, 50, 170); (170, 50, 170)] = (0 + half + half, 0%Z, 1%Z)
  /\ 0 + half + half == 1.
Proof. split; reflexivity. Qed.


(** *** Further properties of the state machine *)

Lemma is_up_true (a : Q * Q * Q) :
  posture_valid (fst (fst a)) (snd (fst a)) (snd a) = true <-> is_up a.
Proof. unfold is_up. apply posture_valid_true. Qed.

Lemma is_down_true (a : Q * Q * Q) :
  down_position (fst (fst a)) (snd a) = true <-> is_down a.
Proof. unfold is_down. apply down_position_true. Qed.

(** What one call can do to the state: leave count and direction alone
    (possibly raising the form flag), or count one half rep with form 1
    while the direction flips between 0 and 1. *)
Lemma advance_cases (c : Q) (d f : Z) (a : Q * Q * Q) :
  (exists f', advance (c, d, f) a = (c, d, f') /\ (f' = f \/ f' = 1%Z)) \/
  (advance (c, d, f) a = (c + half, (1 - d)%Z, 1%Z) /\
   (d = 0%Z \/ d = 1%Z)).
Proof.
  destruct a as [[e s] h]. cbn [advance].
  split_update; subst;
    first [ right; split; [reflexivity | lia]
          | left; eexists; split; [reflexivity | auto] ].
Qed.

(** X1. Nothing is counted before the starting position has been seen:
    while the form is not 1, any frames that are not posture-valid (frames
    in the down position included) leave count, direction and form as
    they are, and each of them is answered "Get into starting position". *)
Theorem no_count_before_start (frames : list (Q * Q * Q)) (count : Q)
    (direction form : Z) :
  form <> 1%Z ->
  Forall (fun a => ~ is_up a) frames ->
  feed (count, direction, form) frames = (count, direction, form) /\
  forall a, In a frames ->
    update_feedback_and_count (fst (fst a)) (snd (fst a)) (snd a)
                              direction count form
    = ("Get into starting position"%string, count, direction, form).
Proof.
  intros Hf Hall.
  assert (Hone : forall a, ~ is_up a ->
            update_feedback_and_count (fst (fst a)) (snd (fst a)) (snd a)
                                      direction count form
            = ("Get into starting position"%string, count, direction, form)).
  { intros a Ha. rewrite <- is_up_true in Ha.
    unfold update_feedback_and_count.
    destruct (posture_valid _ _ _); [congruence|].
    destruct (Z.eqb_spec form 1); [contradiction | reflexivity]. }
  split.
  - unfold feed. induction Hall as [|a frames Ha _ IH]; [reflexivity|].
    cbn [fold_left].
    replace (advance (count, direction, form) a)
      with (count, direction, form); [exact IH|].
    pose proof (Hone a Ha) as E. destruct a as [[e s] h].
    cbn [fst snd] in E. unfold advance. rewrite E. reflexivity.
  - intros a Hin. apply Hone.
    rewrite Forall_forall in Hall. now apply Hall.
Qed.

Lemma no_count_before_start_witness :
  feed (0, 0%Z, 0%Z) down_frames = (0, 0%Z, 0%Z).
Proof.
  assert (Hall : Forall (fun a => ~ is_up a) down_frames).
  { repeat constructor; unfold is_up, Qlt; cbn; lia. }
  assert (Hf : 0%Z <> 1%Z) by discriminate.
  exact (proj1 (no_count_before_start down_frames 0 0 0 Hf Hall)).
Defined.

(** X2. Frames that are neither in the down position nor in the up
    position change nothing, whatever the state. *)
Theorem idle_frames_ignored (frames : list (Q * Q * Q)) (st : rep_state) :
  Forall (fun a => ~ is_down a /\ ~ is_up a) frames ->
  feed st frames = st.
Proof.
  intros Hall. unfold feed.
  induction Hall as [|a frames [Hd Hu] _ IH]; [reflexivity|].
  cbn [fold_left].
  replace (advance st a) with st; [exact IH|].
  destruct st as [[c d] f], a as [[e s] h].
  rewrite <- is_down_true in Hd. rewrite <- is_up_true in Hu.
  cbn [fst snd] in Hd, Hu.
  unfold advance, update_feedback_and_count, count_of, dir_of, form_of.
  destruct (posture_valid e s h); [congruence|].
  destruct (down_position e h); [congruence|].
  destruct (f =? 1)%Z; reflexivity.
Qed.

Lemma idle_frames_ignored_witness :
  feed (3 # 2, 1%Z, 1%Z) [(120, 50, 170); (170, 50, 150); (80, 50, 100)]
  = (3 # 2, 1%Z, 1%Z).
Proof.
  apply idle_frames_ignored.
  repeat constructor; unfold is_down, is_up, Qle, Qlt; cbn; lia.
Defined.

Lemma advance_cycle (c : Q) (p : (Q * Q * Q) * (Q * Q * Q)) :
  is_down (fst p) -> is_up (snd p) ->
  advance (advance (c, 0%Z, 1%Z) (fst p)) (snd p)
  = (c + half + half, 0%Z, 1%Z).
Proof.
  intros Hd Hu. rewrite (advance_down_first c (fst p) Hd).
  destruct (snd p) as [[e s] h]. apply is_up_true in Hu. cbn [fst snd] in Hu.
  assert (Hnd : down_position e h = false).
  { apply posture_valid_true in Hu. apply down_position_false.
    intros [H _]. destruct Hu as [H' _]. lra. }
  unfold advance, update_feedback_and_count, count_of, dir_of, form_of.
  rewrite Hu, Hnd. reflexivity.
Qed.



Lemma half_reps_advance (st : rep_state) (k : Z) (a : Q * Q * Q) :
  half_reps st k ->
  (half_reps (advance st a) k /\
   fst (advance st a) = fst st) \/
  (half_reps (advance st a) (k + 1) /\
   fst (fst (advance st a)) = fst (fst st) + half /\
   snd (advance st a) = 1%Z).
Proof.
  destruct st as [[c d] f]. unfold half_reps at 1.
  intros (Hk & Hc & Hd & Hf & Hz).
  destruct (advance_cases c d f a) as [(f' & -> & Hf') | [-> Hd']].
  - left. split; [|reflexivity]. unfold half_reps.
    repeat split; try assumption.
    + destruct Hf'; subst; auto.
    + intros ->. destruct Hf' as [<-|]; [now apply Hz | discriminate].
  - right. cbn [fst snd]. split; [|split; reflexivity].
    unfold half_reps. repeat split.
    + lia.
    + rewrite Hc, inject_Z_plus. change (inject_Z 1) with 1.
      unfold half. lra.
    + subst d. clear - Hd'. Z.div_mod_to_equations. lia.
    + auto.
    + discriminate.
Qed.



End PushupFacts.

(** ** The state machine with binary64 counts *)

Module Float64Facts.

Import Pushup PushupFacts.
Local Open Scope string_scope.

(** *** Powers of two and rounding *)

Lemma inject_Z_pos (z : Z) : (0 < z)%Z -> 0 < inject_Z z.
Proof. intros H. unfold Qlt, inject_Z. cbn. lia. Qed.

Lemma pow2_nonneg_exp (e : Z) :
  (0 <= e)%Z -> Float64.pow2 e = inject_Z (2 ^ e).
Proof.
  intros H. unfold Float64.pow2.
  destruct (Z.leb_spec 0 e); [reflexivity | lia].
Qed.

Lemma pow2_neg_exp (e : Z) :
  (e < 0)%Z -> Float64.pow2 e = / inject_Z (2 ^ (- e)).
Proof.
  intros H. unfold Float64.pow2.
  destruct (Z.leb_spec 0 e); [lia | reflexivity].
Qed.

Lemma pow2_pos (e : Z) : 0 < Float64.pow2 e.
Proof.
  unfold Float64.pow2. destruct (Z.leb_spec 0 e).
  - apply inject_Z_pos. now apply Z.pow_pos_nonneg.
  - apply Qinv_lt_0_compat, inject_Z_pos. apply Z.pow_pos_nonneg; lia.
Qed.

(** An integer rounds to itself. *)
Lemma round_half_even_Z (y : Q) (z : Z) :
  y == inject_Z z -> Float64.round_half_even y = z.
Proof.
  intros H.
  assert (Hf : Qfloor y = z) by (rewrite H; apply Qfloor_Z).
  assert (Hc : Qcompare (y - inject_Z z) half = Lt).
  { assert (E : y - inject_Z z == 0) by (rewrite H; ring).
    rewrite E. reflexivity. }
  unfold Float64.round_half_even. cbv zeta. rewrite Hf, Hc. reflexivity.
Qed.

(** Rounding to an integer never goes below the floor. *)
Lemma round_half_even_floor (y : Q) :
  (Qfloor y <= Float64.round_half_even y)%Z.
Proof.
  unfold Float64.round_half_even.
  destruct (Qcompare _ _); [destruct (Z.even _)| |]; lia.
Qed.

(** Below [2 ^ n] the logarithm is below [n]. *)
Lemma floor_log2_lt (x : Q) (n : Z) :
  (1 <= n)%Z -> 0 < x -> x < inject_Z (2 ^ n) ->
  (Float64.floor_log2 x < n)%Z.
Proof.
  intros Hn Hx Hlt. unfold Float64.floor_log2.
  destruct (Qle_bool 1 x) eqn:E.
  - apply Qle_bool_iff in E.
    assert (H1 : (1 <= Qfloor x)%Z).
    { rewrite <- (Qfloor_Z 1). now apply Qfloor_resp_le. }
    apply Z.log2_lt_pow2; [lia|].
    rewrite Zlt_Qlt. eapply Qle_lt_trans; [apply Qfloor_le | exact Hlt].
  - pose proof (Z.log2_up_nonneg (Qceiling (/ x))). lia.
Qed.

(** A multiple of one half below [2 ^ 52] is a binary64 number. *)
Lemma round_exact_halves (x : Q) (k : Z) :
  (0 < k < 2 ^ 53)%Z -> x == inject_Z k * half -> Float64.round x == x.
Proof.
  intros Hk Hx.
  assert (Hpos : 0 < x).
  { rewrite Hx. unfold half.
    pose proof (inject_Z_pos k (proj1 Hk)). lra. }
  assert (Hlt : x < inject_Z (2 ^ 52)).
  { rewrite Hx. unfold half.
    assert (H : inject_Z k < inject_Z (2 ^ 53))
      by (rewrite <- Zlt_Qlt; apply Hk).
    change (2 ^ 53)%Z with (2 * 2 ^ 52)%Z in H.
    rewrite inject_Z_mult in H. change (inject_Z 2) with 2 in H. lra. }
  unfold Float64.round.
  destruct (Qeq_bool x 0) eqn:E0.
  { apply Qeq_bool_iff in E0. rewrite E0 in Hpos. discriminate. }
  assert (Habs : Qabs x == x) by (apply Qabs_pos; lra).
  assert (He : (-1074 <= Float64.exponent x <= -1)%Z).
  { unfold Float64.exponent.
    assert (H : (Float64.floor_log2 (Qabs x) < 52)%Z).
    { apply floor_log2_lt; [lia | rewrite Habs; exact Hpos
                            | rewrite Habs; exact Hlt]. }
    lia. }
  remember (Float64.exponent x) as e eqn:Ee. clear Ee.
  rewrite (pow2_neg_exp e) by lia.
  assert (Hp : (0 < 2 ^ (- e - 1))%Z) by (apply Z.pow_pos_nonneg; lia).
  assert (E2 : (2 ^ (- e) = 2 * 2 ^ (- e - 1))%Z).
  { rewrite <- Z.pow_succ_r by lia. f_equal. lia. }
  rewrite E2. remember (2 ^ (- e - 1))%Z as p eqn:Ep. clear Ep E2.
  assert (Hq : 0 < inject_Z p) by now apply inject_Z_pos.
  assert (Hy : x / / inject_Z (2 * p) == inject_Z (k * p)).
  { rewrite !inject_Z_mult, Hx. change (inject_Z 2) with 2.
    unfold half. field. lra. }
  rewrite (round_half_even_Z _ _ Hy).
  rewrite !inject_Z_mult, Hx. change (inject_Z 2) with 2.
  unfold half. field. lra.
Qed.

Lemma pow2_succ (e : Z) : Float64.pow2 (e + 1) == 2 * Float64.pow2 e.
Proof.
  destruct (Z.lt_trichotomy e (-1)) as [H | [-> | H]].
  - rewrite (pow2_neg_exp (e + 1)), (pow2_neg_exp e) by lia.
    assert (E : (2 ^ (- e) = 2 * 2 ^ (- (e + 1)))%Z).
    { rewrite <- Z.pow_succ_r by lia. f_equal. lia. }
    rewrite E, inject_Z_mult. change (inject_Z 2) with 2.
    assert (Hp : 0 < inject_Z (2 ^ (- (e + 1))))
      by (apply inject_Z_pos, Z.pow_pos_nonneg; lia).
    field. lra.
  - reflexivity.
  - rewrite (pow2_nonneg_exp (e + 1)), (pow2_nonneg_exp e) by lia.
    rewrite Z.pow_add_r by lia. rewrite inject_Z_mult.
    change (inject_Z (2 ^ 1)) with 2. ring.
Qed.

Lemma pow2_shift (e n : Z) :
  (0 <= n)%Z ->
  Float64.pow2 (e + n) == inject_Z (2 ^ n) * Float64.pow2 e.
Proof.
  intros Hn. revert e. pattern n. apply natlike_ind; [| |exact Hn].
  - intros e. rewrite Z.add_0_r. change (inject_Z (2 ^ 0)) with 1. ring.
  - intros k Hk IH e.
    replace (e + Z.succ k)%Z with ((e + 1) + k)%Z by lia.
    rewrite IH, pow2_succ, Z.pow_succ_r by lia.
    rewrite inject_Z_mult. change (inject_Z 2) with 2. ring.
Qed.

Lemma pow2_ge_1 (n : Z) : (0 <= n)%Z -> 1 <= inject_Z (2 ^ n).
Proof.
  intros Hn. change 1 with (inject_Z 1). rewrite <- Zle_Qle.
  pose proof (Z.pow_pos_nonneg 2 n). lia.
Qed.

Lemma pow2_le (a b : Z) :
  (a <= b)%Z -> Float64.pow2 a <= Float64.pow2 b.
Proof.
  intros H. pose proof (pow2_shift a (b - a) ltac:(lia)) as S.
  replace (a + (b - a))%Z with b in S by lia. rewrite S.
  pose proof (pow2_ge_1 (b - a) ltac:(lia)). pose proof (pow2_pos a). nra.
Qed.

(** The logarithm brackets its argument between two powers of two. *)
Lemma floor_log2_spec (y : Q) :
  0 < y ->
  Float64.pow2 (Float64.floor_log2 y) <= y /\
  y < Float64.pow2 (Float64.floor_log2 y + 1).
Proof.
  intros Hy. unfold Float64.floor_log2.
  destruct (Qle_bool 1 y) eqn:E.
  - apply Qle_bool_iff in E.
    assert (H1 : (1 <= Qfloor y)%Z).
    { rewrite <- (Qfloor_Z 1). now apply Qfloor_resp_le. }
    destruct (Z.log2_spec (Qfloor y)) as [Hlo Hhi]; [lia|].
    pose proof (Z.log2_nonneg (Qfloor y)) as Hn.
    rewrite !pow2_nonneg_exp by lia. split.
    + eapply Qle_trans; [|apply Qfloor_le]. now rewrite <- Zle_Qle.
    + eapply Qlt_le_trans; [apply Qlt_floor|].
      rewrite <- Zle_Qle. unfold Z.succ in Hhi. lia.
  - assert (Hlt : y < 1).
    { apply Qnot_le_lt. intros H. apply Qle_bool_iff in H. congruence. }
    assert (Hy0 : ~ y == 0) by (intros H; rewrite H in Hy; discriminate).
    pose proof (Qmult_inv_r y Hy0) as Hinv.
    pose proof (Qinv_lt_0_compat y Hy) as Hu.
    remember (/ y) as u eqn:Eu. clear Eu.
    pose proof (Qle_ceiling u) as Hc1. pose proof (Qceiling_lt u) as Hc2.
    remember (Qceiling u) as c eqn:Ec. clear Ec.
    assert (Hc : (1 < c)%Z).
    { rewrite Zlt_Qlt. change (inject_Z 1) with 1.
      eapply Qlt_le_trans; [|exact Hc1]. nra. }
    destruct (Z.log2_up_spec c Hc) as [Hlo Hhi].
    pose proof (Z.log2_up_pos c Hc) as Hj.
    remember (Z.log2_up c) as j eqn:Ej. clear Ej.
    rewrite Zle_Qle in Hhi. rewrite Zlt_Qlt in Hlo.
    pose proof (pow2_shift (- j) j ltac:(lia)) as S1.
    replace (- j + j)%Z with 0%Z in S1 by lia.
    pose proof (pow2_shift (- j + 1) (Z.pred j) ltac:(lia)) as S2.
    replace (- j + 1 + Z.pred j)%Z with 0%Z in S2 by lia.
    change (Float64.pow2 0) with 1 in S1, S2.
    pose proof (pow2_pos (- j)) as P1. pose proof (pow2_pos (- j + 1)) as P2.
    assert (Hc3 : inject_Z (Z.pred c) < u).
    { unfold Z.pred. replace (c + -1)%Z with (c - 1)%Z by lia. exact Hc2. }
    assert (Hlo' : inject_Z (2 ^ Z.pred j) <= inject_Z (Z.pred c)).
    { rewrite <- Zle_Qle. rewrite <- Zlt_Qlt in Hlo. lia. }
    remember (inject_Z (2 ^ j)) as A. remember (inject_Z (2 ^ Z.pred j)) as B.
    remember (Float64.pow2 (- j)) as P. remember (Float64.pow2 (- j + 1)) as R.
    remember (inject_Z c) as C. remember (inject_Z (Z.pred c)) as C'.
    split.
    + assert (H1 : 1 <= A * y) by nra.
      assert (H2 : P * 1 <= P * (A * y)) by nra.
      nra.
    + assert (H1 : B * y < 1) by nra.
      assert (H2 : R * (B * y) < R * 1) by nra.
      nra.
Qed.

Lemma floor_log2_mono (y y' : Q) :
  0 < y -> y <= y' ->
  (Float64.floor_log2 y <= Float64.floor_log2 y')%Z.
Proof.
  intros Hy Hle.
  destruct (floor_log2_spec y Hy) as [Hlo _].
  destruct (floor_log2_spec y') as [_ Hhi']; [lra|].
  destruct (Z_le_gt_dec (Float64.floor_log2 y) (Float64.floor_log2 y'))
    as [H|H]; [exact H|exfalso].
  pose proof (pow2_le (Float64.floor_log2 y' + 1) (Float64.floor_log2 y)
                      ltac:(lia)).
  lra.
Qed.

Lemma round_nonzero (x : Q) :
  ~ x == 0 ->
  Float64.round x
  = inject_Z (Float64.round_half_even (x / Float64.pow2 (Float64.exponent x)))
    * Float64.pow2 (Float64.exponent x).
Proof.
  intros H. unfold Float64.round.
  destruct (Qeq_bool x 0) eqn:E; [|reflexivity].
  apply Qeq_bool_iff in E. contradiction.
Qed.

(** Rounding does not go below a number of its own grid that lies below
    the argument. *)
Lemma round_above_grid (x : Q) (z : Z) :
  ~ x == 0 ->
  inject_Z z * Float64.pow2 (Float64.exponent x) <= x ->
  inject_Z z * Float64.pow2 (Float64.exponent x) <= Float64.round x.
Proof.
  intros Hx Hz. rewrite (round_nonzero x Hx).
  pose proof (pow2_pos (Float64.exponent x)) as Hp.
  remember (Float64.pow2 (Float64.exponent x)) as P eqn:EP. clear EP.
  assert (H1 : inject_Z z <= x / P) by (apply Qle_shift_div_l; assumption).
  assert (H2 : (z <= Qfloor (x / P))%Z).
  { rewrite <- (Qfloor_Z z). now apply Qfloor_resp_le. }
  pose proof (round_half_even_floor (x / P)) as H3.
  assert (H4 : inject_Z z <= inject_Z (Float64.round_half_even (x / P))).
  { rewrite <- Zle_Qle. lia. }
  nra.
Qed.

(** Adding one half to a binary64 number and rounding never gives less
    than the number. *)
Lemma round_add_half_ge (c : Q) :
  Float64.representable c -> c <= Float64.round (c + half).
Proof.
  unfold Float64.representable. intros Hc.
  destruct (Qeq_dec (c + half) 0) as [Ex|Ex].
  { unfold Float64.round.
    destruct (Qeq_bool (c + half) 0) eqn:E.
    - unfold half in Ex. lra.
    - apply Qeq_bool_neq in E. contradiction. }
  destruct (Qeq_dec c 0) as [Ec|Ec].
  { eapply Qle_trans; [|apply (round_above_grid (c + half) 0 Ex)];
      change (inject_Z 0) with 0; unfold half; lra. }
  rewrite (round_nonzero c Ec) in Hc.
  remember (Float64.round_half_even (c / Float64.pow2 (Float64.exponent c)))
    as mc eqn:Emc. clear Emc.
  assert (Hac : 0 < Qabs c).
  { pose proof (Qabs_nonneg c). destruct (Qeq_dec (Qabs c) 0) as [E|E].
    - exfalso. apply Ec. revert E. apply Qabs_case; intros; lra.
    - lra. }
  assert (Hax : 0 < Qabs (c + half)).
  { pose proof (Qabs_nonneg (c + half)).
    destruct (Qeq_dec (Qabs (c + half)) 0) as [E|E].
    - exfalso. apply Ex. revert E. apply Qabs_case; intros; lra.
    - lra. }
  destruct (Z_le_gt_dec (Float64.exponent (c + half)) (Float64.exponent c))
    as [He|He].
  - (* the count lies on the grid of the sum *)
    pose proof (pow2_shift (Float64.exponent (c + half))
                  (Float64.exponent c - Float64.exponent (c + half))
                  ltac:(lia)) as S.
    replace (Float64.exponent (c + half)
             + (Float64.exponent c - Float64.exponent (c + half)))%Z
      with (Float64.exponent c) in S by lia.
    remember (2 ^ (Float64.exponent c - Float64.exponent (c + half)))%Z
      as p eqn:Ep. clear Ep.
    assert (Eg : inject_Z (mc * p) * Float64.pow2 (Float64.exponent (c + half))
                 == c).
    { rewrite S in Hc. rewrite inject_Z_mult.
      etransitivity; [|exact Hc]. ring. }
    remember (inject_Z (mc * p)
              * Float64.pow2 (Float64.exponent (c + half))) as g eqn:Eg'.
    assert (Hh : 0 < half) by reflexivity.
    assert (Hg : g <= c + half) by lra.
    apply Qle_trans with g; [lra|]. subst g.
    apply round_above_grid; [exact Ex | exact Hg].
  - (* the sum has crossed into the next binade *)
    unfold Float64.exponent in He.
    assert (HL : (Float64.floor_log2 (Qabs c)
                  < Float64.floor_log2 (Qabs (c + half)))%Z) by lia.
    assert (Hex : Float64.exponent (c + half)
                  = (Float64.floor_log2 (Qabs (c + half)) - 52)%Z)
      by (unfold Float64.exponent; lia).
    destruct (floor_log2_spec (Qabs c) Hac) as [_ Hchi].
    destruct (floor_log2_spec (Qabs (c + half)) Hax) as [Hxlo _].
    pose proof (pow2_le (Float64.floor_log2 (Qabs c) + 1)
                  (Float64.floor_log2 (Qabs (c + half))) ltac:(lia)) as Hmid.
    assert (Habs : Qabs c < Qabs (c + half)) by lra.
    assert (Hxpos : 0 < c + half /\ Qabs (c + half) == c + half).
    { revert Habs. unfold half.
      apply (Qabs_case c); apply (Qabs_case (c + (1 # 2))); intros; split;
        lra. }
    destruct Hxpos as [Hxpos Hxabs].
    pose proof (pow2_shift (Float64.exponent (c + half)) 52 ltac:(lia)) as S.
    rewrite Hex in S.
    replace (Float64.floor_log2 (Qabs (c + half)) - 52 + 52)%Z
      with (Float64.floor_log2 (Qabs (c + half))) in S by lia.
    rewrite <- Hex in S.
    eapply Qle_trans;
      [|apply (round_above_grid (c + half) (2 ^ 52) Ex)].
    + rewrite <- S. pose proof (Qle_Qabs c). lra.
    + rewrite <- S. lra.
Qed.

Lemma round_exact_2_52 (x : Q) :
  x == inject_Z (2 ^ 52) -> Float64.round x == x.
Proof.
  intros Hx.
  assert (Hpos : 0 < x) by (rewrite Hx; reflexivity).
  assert (Habs : Qabs x == inject_Z (2 ^ 52))
    by (rewrite Qabs_pos; [exact Hx | lra]).
  assert (He : Float64.exponent x = 0%Z).
  { unfold Float64.exponent, Float64.floor_log2.
    destruct (Qle_bool 1 (Qabs x)) eqn:E.
    - rewrite Habs, Qfloor_Z. reflexivity.
    - exfalso. assert (H : 1 <= Qabs x) by (rewrite Habs; discriminate).
      apply Qle_bool_iff in H. congruence. }
  rewrite round_nonzero by (intros H; rewrite H in Hpos; discriminate).
  rewrite He. change (Float64.pow2 0) with 1.
  assert (Hy : x / 1 == inject_Z (2 ^ 52)) by (rewrite Hx; field).
  rewrite (round_half_even_Z _ _ Hy), Hx. ring.
Qed.

(** On the counts of a session the binary64 addition of 0.5 is exact. *)
Lemma add_half_exact (count : Q) :
  Float64.half_grid count ->
  Float64.round (count + half) == count + half.
Proof.
  intros (k & Hk & Hc).
  assert (E : count + half == inject_Z (k + 1) * half).
  { rewrite Hc, inject_Z_plus. change (inject_Z 1) with 1. ring. }
  destruct (Z.eq_dec (k + 1) (2 ^ 53)) as [Etop | Hlt].
  - apply round_exact_2_52. rewrite E, Etop. reflexivity.
  - apply (round_exact_halves _ (k + 1)); [lia | exact E].
Qed.

Lemma half_grid_representable (count : Q) :
  Float64.half_grid count -> Float64.representable count.
Proof.
  intros (k & Hk & Hc). unfold Float64.representable.
  destruct (Z.eq_dec k 0) as [-> | Hk0].
  - assert (E : count == 0) by (rewrite Hc; reflexivity).
    unfold Float64.round. apply Qeq_bool_iff in E as E'. rewrite E'.
    symmetry. exact E.
  - apply (round_exact_halves _ k); [lia | exact Hc].
Qed.

(** The rounding at the boundary of exactness, as binary64 addition
    gives it: 2^52 - 1/2 + 1/2 is exact; 2^52 + 1/2 and 2^52 + 1 + 1/2 are
    ties that go to the even neighbour; 2^53 + 1/2 falls back on 2^53;
    the same holds below zero; and 1/3 goes to 6004799503160661 * 2^-54. *)
Example round_at_the_boundary :
  Float64.round (4503599627370495.5 + half) == 4503599627370496 /\
  Float64.round (4503599627370496 + half) == 4503599627370496 /\
  Float64.round (4503599627370497 + half) == 4503599627370498 /\
  Float64.round (9007199254740992 + half) == 9007199254740992 /\
  Float64.round (- (4503599627370497) + half) == - (4503599627370496) /\
  Float64.round (1 # 3) == 6004799503160661 # 18014398509481984.
Proof. vm_compute. repeat split. Qed.

(** Case analysis on the tests of the binary64 state machine. *)
Ltac split_update64 :=
  unfold Float64.update_feedback_and_count, fb_of, count_of, dir_of, form_of;
  repeat match goal with
         | |- context [posture_valid ?e ?s ?h] =>
             let E := fresh "Eup" in destruct (posture_valid e s h) eqn:E
         | |- context [down_position ?e ?h] =>
             let E := fresh "Edown" in destruct (down_position e h) eqn:E
         | |- context [(?a =? ?b)%Z] =>
             let E := fresh "Ez" in destruct (Z.eqb_spec a b) as [E|E]
         end;
  cbn [fst snd].

(** The binary64 state machine and the one with exact addition take the
    same branch, and differ only in how the incremented count is
    rounded. *)
Lemma binary64_shape (elbow shoulder hip : Q) (direction : Z) (count : Q)
    (form : Z) :
  let r := Pushup.update_feedback_and_count
             elbow shoulder hip direction count form in
  let r64 := Float64.update_feedback_and_count
               elbow shoulder hip direction count form in
  fb_of r64 = fb_of r /\ dir_of r64 = dir_of r /\ form_of r64 = form_of r /\
  ((count_of r64 = count /\ count_of r = count /\ dir_of r = direction) \/
   (count_of r64 = Float64.round (count + half) /\
    count_of r = count + half /\ dir_of r <> direction)).
Proof.
  cbv zeta. unfold Pushup.update_feedback_and_count. split_update64;
    repeat split; try (left; repeat split; reflexivity);
    right; repeat split; subst; discriminate.
Qed.

(** On the counts of a session the two agree. *)
Lemma binary64_agrees (elbow shoulder hip : Q) (direction : Z) (count : Q)
    (form : Z) :
  Float64.half_grid count ->
  let r := Pushup.update_feedback_and_count
             elbow shoulder hip direction count form in
  let r64 := Float64.update_feedback_and_count
               elbow shoulder hip direction count form in
  fb_of r64 = fb_of r /\ count_of r64 == count_of r /\
  dir_of r64 = dir_of r /\ form_of r64 = form_of r.
Proof.
  intros Hg. cbv zeta.
  destruct (binary64_shape elbow shoulder hip direction count form)
    as (Hfb & Hd & Hf & [(E1 & E2 & _) | (E1 & E2 & _)]);
    repeat split; try assumption; rewrite E1, E2; [reflexivity|].
  now apply add_half_exact.
Qed.

(** C6 (amended). With binary64 counts: one call never lowers a finite
    count; on the counts of a session (non-negative multiples of one half
    below 2^52) it raises the count by nothing or by exactly one half; and
    it keeps direction and form within {0, 1} when they start there. *)
Theorem update_bounded_step_binary64 (elbow shoulder hip : Q)
    (direction : Z) (count : Q) (form : Z) :
  let r := Float64.update_feedback_and_count
             elbow shoulder hip direction count form in
  (Float64.representable count -> count <= count_of r) /\
  (Float64.half_grid count ->
     count_of r - count == 0 \/ count_of r - count == half) /\
  (direction = 0%Z \/ direction = 1%Z ->
   form = 0%Z \/ form = 1%Z ->
   (dir_of r = 0%Z \/ dir_of r = 1%Z) /\ (form_of r = 0%Z \/ form_of r = 1%Z)).
Proof.
  cbv zeta.
  destruct (binary64_shape elbow shoulder hip direction count form)
    as (_ & Hd & Hf & Hc).
  split; [|split].
  - intros Hrep. destruct Hc as [(-> & _) | (-> & _)];
      [apply Qle_refl | now apply round_add_half_ge].
  - intros Hg. destruct Hc as [(-> & _) | (-> & _)].
    + left. ring.
    + right. rewrite (add_half_exact count Hg). ring.
  - rewrite Hd, Hf. clear. intros H1 H2.
    split_update; subst; lia.
Qed.

Lemma update_bounded_step_binary64_witness :
  Float64.representable (3 # 2) /\ Float64.half_grid (3 # 2) /\
  3 # 2 <= count_of (Float64.update_feedback_and_count 80 50 170 0 (3 # 2) 1)
  /\
  (count_of (Float64.update_feedback_and_count 80 50 170 0 (3 # 2) 1)
   - (3 # 2) == 0 \/
   count_of (Float64.update_feedback_and_count 80 50 170 0 (3 # 2) 1)
   - (3 # 2) == half) /\
  (dir_of (Float64.update_feedback_and_count 80 50 170 0 (3 # 2) 1) = 0%Z \/
   dir_of (Float64.update_feedback_and_count 80 50 170 0 (3 # 2) 1) = 1%Z).
Proof.
  assert (Hrep : Float64.representable (3 # 2)) by reflexivity.
  assert (Hgrid : Float64.half_grid (3 # 2)).
  { exists 3%Z. split; [split; [lia | reflexivity] | reflexivity]. }
  destruct (update_bounded_step_binary64 80 50 170 0 (3 # 2) 1)
    as (Hge & Hstep & Hflags).
  split; [exact Hrep|]. split; [exact Hgrid|].
  split; [exact (Hge Hrep)|]. split; [exact (Hstep Hgrid)|].
  exact (proj1 (Hflags (or_introl eq_refl) (or_intror eq_refl))).
Defined.

(** C6 (as stated) fails with binary64 counts: at count 2^52 + 1, a
    binary64 number, the down frame that counts raises the count by 1,
    which is neither 0 nor one half. *)
Lemma step_of_one_at_2_52 :
  Float64.representable 4503599627370497 /\
  count_of (Float64.update_feedback_and_count
              80 50 170 0 4503599627370497 1) - 4503599627370497 == 1 /\
  ~ count_of (Float64.update_feedback_and_count
                80 50 170 0 4503599627370497 1) - 4503599627370497 == 0 /\
  ~ count_of (Float64.update_feedback_and_count
                80 50 170 0 4503599627370497 1) - 4503599627370497 == half.
Proof. vm_compute. repeat split; discriminate. Qed.

(** C10 (amended). With binary64 counts: in one call the count changes
    only if the direction changes; and on the counts of a session
    (non-negative multiples of one half below 2^52) every change of
    direction comes with a change of the count, by exactly one half. *)
Theorem count_direction_binary64 (elbow shoulder hip : Q)
    (direction : Z) (count : Q) (form : Z) :
  let r := Float64.update_feedback_and_count
             elbow shoulder hip direction count form in
  (~ count_of r == count -> dir_of r <> direction) /\
  (Float64.half_grid count -> dir_of r <> direction ->
     ~ count_of r == count /\ count_of r == count + half).
Proof.
  cbv zeta.
  destruct (binary64_shape elbow shoulder hip direction count form)
    as (_ & Hd & _ & [(E1 & _ & E3) | (E1 & _ & E3)]); rewrite Hd, E1.
  - split.
    + intros H. exfalso. apply H. reflexivity.
    + intros _ H. contradiction.
  - split; [intros _; exact E3|].
    intros Hg _. rewrite (add_half_exact count Hg).
    split; [apply half_changes | reflexivity].
Qed.

Lemma count_direction_binary64_witness :
  Float64.half_grid (3 # 2) /\
  dir_of (Float64.update_feedback_and_count 80 50 170 0 (3 # 2) 1) <> 0%Z /\
  ~ count_of (Float64.update_feedback_and_count 80 50 170 0 (3 # 2) 1)
    == 3 # 2 /\
  count_of (Float64.update_feedback_and_count 80 50 170 0 (3 # 2) 1)
    == (3 # 2) + half.
Proof.
  assert (Hgrid : Float64.half_grid (3 # 2)).
  { exists 3%Z. split; [split; [lia | reflexivity] | reflexivity]. }
  assert (Hd : dir_of (Float64.update_feedback_and_count
                         80 50 170 0 (3 # 2) 1) <> 0%Z)
    by (cbn; discriminate).
  split; [exact Hgrid|]. split; [exact Hd|].
  exact (proj2 (count_direction_binary64 80 50 170 0 (3 # 2) 1) Hgrid Hd).
Defined.

(** C10 (as stated) fails with binary64 counts: at count 2^53 the down
    frame flips the direction from 0 to 1 while the count comes back
    unchanged. *)
Lemma direction_flips_alone_at_2_53 :
  Float64.representable 9007199254740992 /\
  dir_of (Float64.update_feedback_and_count
            80 50 170 0 9007199254740992 1) <> 0%Z /\
  count_of (Float64.update_feedback_and_count
              80 50 170 0 9007199254740992 1) == 9007199254740992.
Proof. vm_compute. repeat split; discriminate. Qed.

End Float64Facts.

(** ** The frame pipeline *)

Module PipelineFacts.

Import Pushup Pipeline PushupFacts.
Local Open Scope string_scope.

(** Whatever branch is taken, the rep state handed back is either the one
    received or the result of one state-machine call on it. *)
Lemma process_frame_state (img : option image) (pose : pose_outcome)
    (count : Q) (direction form : Z) :
  let '(_, count', direction', form', _) :=
    process_frame img pose count direction form in
  (count', direction', form') = (count, direction, form) \/
  exists angles, (count', direction', form') =
                 advance (count, direction, form) angles.
Proof.
  unfold process_frame.
  destruct img as [im|]; [|left; reflexivity].
  destruct (img_size im =? 0)%N; [left; reflexivity|].
  destruct pose as [[|]|lmList angles]; try (left; reflexivity).
  destruct (negb (List.length lmList =? 0)%nat); [|left; reflexivity].
  destruct angles as [|e|e s|e s h]; try (left; reflexivity).
  destruct (update_feedback_and_count e s h direction count form)
    as [[[fb c'] d'] f'] eqn:E.
  right. exists (e, s, h). unfold advance, count_of, dir_of, form_of.
  rewrite E. reflexivity.
Qed.

(** C8. On a valid (non-null, non-empty) image for which the detector
    returns an empty landmark list, the pipeline answers "Move into
    frame", hands back count, direction and form as it received them, and
    still returns the rendered copy of the frame. *)
Theorem no_pose_keeps_state (im : image) (angles : angle_outcome)
    (count : Q) (direction form : Z) :
  img_size im <> 0%N ->
  process_frame (Some im) (PoseLandmarks [] angles) count direction form
  = (Rendered im (draw_ui 0 0 count "Move into frame" form 0 0 0),
     count, direction, form, "Move into frame").
Proof.
  intros Hsize. unfold process_frame.
  destruct (N.eqb_spec (img_size im) 0) as [E|_]; [contradiction|].
  reflexivity.
Qed.

Lemma no_pose_keeps_state_witness :
  img_size sample_image <> 0%N /\
  process_frame (Some sample_image) (PoseLandmarks [] AnglesRaise0)
                (3 # 2) 1 1
  = (Rendered sample_image (draw_ui 0 0 (3 # 2) "Move into frame" 1 0 0 0),
     3 # 2, 1%Z, 1%Z, "Move into frame").
Proof.
  assert (H : img_size sample_image <> 0%N) by (cbn; discriminate).
  split; [exact H|].
  exact (no_pose_keeps_state sample_image AnglesRaise0 (3 # 2) 1 1 H).
Defined.


(** *** Further properties of the pipeline *)

(** X5. Failures are contained: whenever the pipeline does not reach the
    state machine (null or empty image, detector exception, empty landmark
    list, exception while computing the angles), count, direction and form
    come back as they went in, and the feedback is one of "Move into
    frame", "Processing error", "Error detecting pose". *)
Theorem failures_keep_rep_state (img : option image) (pose : pose_outcome)
    (count : Q) (direction form : Z) :
  reaches_update img pose = false ->
  let r := process_frame img pose count direction form in
  (snd (fst (fst (fst r))), snd (fst (fst r)), snd (fst r))
    = (count, direction, form) /\
  (snd r = "Move into frame" \/ snd r = "Processing error" \/
   snd r = "Error detecting pose").
Proof.
  unfold reaches_update, invalid_image, process_frame.
  destruct img as [im|]; [|cbn; auto].
  destruct (img_size im =? 0)%N; [cbn; auto|].
  destruct pose as [[|]|lmList angles]; cbn [negb andb]; [cbn; auto ..|].
  destruct (negb (List.length lmList =? 0)%nat);
    destruct angles; cbn; intros; auto; discriminate.
Qed.

Lemma failures_keep_rep_state_witness :
  reaches_update (Some sample_image) (PoseRaises false) = false /\
  (snd (fst (fst (fst (process_frame (Some sample_image) (PoseRaises false)
                                     (3 # 2) 1 1)))),
   snd (fst (fst (process_frame (Some sample_image) (PoseRaises false)
                                (3 # 2) 1 1))),
   snd (fst (process_frame (Some sample_image) (PoseRaises false)
                           (3 # 2) 1 1)))
  = (3 # 2, 1%Z, 1%Z).
Proof.
  assert (H : reaches_update (Some sample_image) (PoseRaises false) = false)
    by reflexivity.
  split; [exact H|].
  exact (proj1 (failures_keep_rep_state
                  (Some sample_image) (PoseRaises false) (3 # 2) 1 1 H)).
Defined.

(** X6. What is painted agrees with what is returned: whenever the frame
    handed back went through [draw_ui], its rep counter shows the integer
    part of the returned count, its banner shows the returned feedback in
    the affirmative colour exactly when the returned form is 1, and the
    gauge is present exactly when the returned form is 1. *)
Theorem overlay_shows_returned_state (img : option image)
    (pose : pose_outcome) (count : Q) (direction form : Z) (ui : overlay) :
  let r := process_frame img pose count direction form in
  overlay_of (fst (fst (fst (fst r)))) = Some ui ->
  ov_reps ui = py_int (snd (fst (fst (fst r)))) /\
  ov_feedback ui = snd r /\
  ov_affirmative ui = (snd (fst r) =? 1)%Z /\
  (ov_gauge ui <> None <-> snd (fst r) = 1%Z).
Proof.
  cbv zeta. unfold process_frame.
  destruct img as [im|]; [|cbn; intros [=]].
  destruct (img_size im =? 0)%N; [cbn; intros [=]|].
  destruct pose as [[|]|lmList angles]; [cbn; intros [=] ..|].
  assert (Hdraw : forall per bar c fb f e s h u,
            Some (draw_ui per bar c fb f e s h) = Some u ->
            ov_reps u = py_int c /\ ov_feedback u = fb /\
            ov_affirmative u = (f =? 1)%Z /\ (ov_gauge u <> None <-> f = 1%Z)).
  { intros per bar c fb f e s h u [= <-]. unfold draw_ui. cbn.
    repeat split; destruct (Z.eqb_spec f 1); congruence. }
  destruct (negb (List.length lmList =? 0)%nat); [|cbn; apply Hdraw].
  destruct angles as [|e|e s|e s h]; try (cbn; apply Hdraw).
  destruct (update_feedback_and_count e s h direction count form)
    as [[[fb c'] d'] f']. cbn. apply Hdraw.
Qed.

Lemma overlay_shows_returned_state_witness :
  ov_reps (draw_ui 0 0 (3 # 2) "Move into frame" 1 0 0 0) = 1%Z /\
  ov_feedback (draw_ui 0 0 (3 # 2) "Move into frame" 1 0 0 0)
    = "Move into frame".
Proof.
  destruct (overlay_shows_returned_state
              (Some sample_image) (PoseLandmarks [] AnglesRaise0)
              (3 # 2) 1 1 _ eq_refl) as (H1 & H2 & _).
  split; [exact H1 | exact H2].
Defined.

Lemma interp_between (x x0 x1 f0 f1 lo hi : Q) :
  x0 < x1 -> lo <= f0 <= hi -> lo <= f1 <= hi ->
  lo <= interp x x0 x1 f0 f1 <= hi.
Proof.
  intros Hx H0 H1. unfold interp.
  destruct (Qleb x x0) eqn:E0; [exact H0|].
  destruct (Qleb x1 x) eqn:E1; [exact H1|].
  assert (Hlo : x0 < x).
  { apply Qnot_le_lt. intro H. apply Qleb_true in H. congruence. }
  assert (Hhi : x < x1).
  { apply Qnot_le_lt. intro H. apply Qleb_true in H. congruence. }
  set (t := (x - x0) / (x1 - x0)).
  assert (Ht : 0 <= t <= 1).
  { unfold t. split.
    - apply Qle_shift_div_l; lra.
    - apply Qle_shift_div_r; lra. }
  assert (E : f0 + (x - x0) * (f1 - f0) / (x1 - x0) == f0 + t * (f1 - f0)).
  { unfold t. field. lra. }
  rewrite E. split; nra.
Qed.

(** X7. The progress gauge.  When the state machine was reached, the
    percentage label lies between 0 and 100 and the top of the gauge fill
    between 50 and 380, the two ends of the gauge outline, whatever the
    elbow angle.  On the frames that are rendered without reaching it (no
    pose, angle error) the gauge, if drawn, shows 0 percent with its fill
    starting at row 0, above the outline. *)
Theorem gauge_fill_range (img : option image) (pose : pose_outcome)
    (count : Q) (direction form : Z) (ui : overlay) (fill_top percent : Z) :
  overlay_of (fst (fst (fst (fst
     (process_frame img pose count direction form))))) = Some ui ->
  ov_gauge ui = Some (fill_top, percent) ->
  (reaches_update img pose = true ->
     (50 <= fill_top <= 380)%Z /\ (0 <= percent <= 100)%Z) /\
  (reaches_update img pose = false -> fill_top = 0%Z /\ percent = 0%Z).
Proof.
  unfold process_frame, reaches_update, invalid_image.
  destruct img as [im|]; [|cbn; intros [=]].
  destruct (img_size im =? 0)%N; [cbn; intros [=]|].
  destruct pose as [[|]|lmList angles]; [cbn; intros [=] ..|].
  assert (Hzero : forall c fb f e s h,
            Some (draw_ui 0 0 c fb f e s h) = Some ui ->
            ov_gauge ui = Some (fill_top, percent) ->
            fill_top = 0%Z /\ percent = 0%Z).
  { intros c fb f e s h [= <-]. unfold draw_ui. cbn.
    destruct (f =? 1)%Z; [|discriminate]. intros [= <- <-]. auto. }
  cbn [negb andb].
  destruct (negb (List.length lmList =? 0)%nat).
  - destruct angles as [|e|e s|e s h];
      try (cbn; intros H1 H2; split; [discriminate | intros _; eauto]).
    destruct (update_feedback_and_count e s h direction count form)
      as [[[fb c'] d'] f'].
    cbn [fst snd overlay_of]. intros [= <-]. unfold draw_ui. cbn [ov_gauge].
    destruct (f' =? 1)%Z; [|discriminate]. intros [= <- <-].
    split; [intros _ | discriminate]. split.
    + apply py_int_range; [lia | |];
        apply (interp_between e 90 160 380 50 (inject_Z 50) (inject_Z 380));
        unfold inject_Z; lra.
    + apply py_int_range; [lia | |];
        apply (interp_between e 90 160 0 100 (inject_Z 0) (inject_Z 100));
        unfold inject_Z; lra.
  - destruct angles; cbn; intros H1 H2;
      (split; [discriminate | intros _; eauto]).
Qed.

Lemma gauge_fill_range_witness :
  overlay_of (fst (fst (fst (fst
     (process_frame (Some sample_image)
        (PoseLandmarks [(12%nat, 0%Z, 0%Z)] (Angles 125 50 170))
        0 0 1)))))
  = Some (draw_ui 50 215 0 "Fix Form" 1 125 50 170) /\
  (50 <= 215 <= 380)%Z /\ (0 <= 50 <= 100)%Z.
Proof.
  assert (H : overlay_of (fst (fst (fst (fst
     (process_frame (Some sample_image)
        (PoseLandmarks [(12%nat, 0%Z, 0%Z)] (Angles 125 50 170))
        0 0 1)))))
    = Some (draw_ui 50 215 0 "Fix Form" 1 125 50 170)) by reflexivity.
  split; [exact H|].
  exact (proj1 (gauge_fill_range _ _ 0 0 1 _ 215 50 H eq_refl) eq_refl).
Defined.

(** X8. The feedback banner is centred: on an image of any width and for
    any text width, [draw_ui] paints the white banner 10 pixels wider than
    the text on each side, and the margins left and right of the banner
    differ by at most one pixel. *)
Theorem banner_centred (h w text_width : Z) (per bar count : Q)
    (feedback : string) (form : Z) (elbow shoulder hip : Q) :
  exists x1 x2 text_x colour,
    In (Rectangle x1 10 x2 60 (255, 255, 255)%Z Filled)
       (draw_ui_calls h w text_width per bar count feedback form
                      elbow shoulder hip) /\
    In (PutText (Feedback feedback) text_x 45 colour 3)
       (draw_ui_calls h w text_width per bar count feedback form
                      elbow shoulder hip) /\
    (text_x = x1 + 10 /\ x2 = text_x + text_width + 10 /\
     0 <= (w - x2) - x1 <= 1)%Z.
Proof.
  unfold draw_ui_calls.
  exists ((w - text_width) / 2 - 10)%Z, ((w - text_width) / 2 + text_width + 10)%Z,
         ((w - text_width) / 2)%Z,
         (if (form =? 1)%Z then (0, 255, 0)%Z else (0, 0, 255)%Z).
  split; [|split].
  - apply in_or_app. right. cbn. auto.
  - apply in_or_app. right. cbn. auto 6.
  - Z.div_mod_to_equations. lia.
Qed.

End PipelineFacts.

(** ** The session loop *)

Module SessionFacts.

Import Pushup Pipeline Session PushupFacts PipelineFacts.
Local Open Scope Z_scope.

(** The shape of every iteration: the receive failed; or the frame was
    counted and failed to decode; or it was decoded, processed and then
    either dropped at encoding or handed to the send stage. *)
Lemma loop_body_cases (s : session) (ev : frame_event) :
  (ev_received ev = false /\ loop_body s ev = (s, [], Break ReceiveFailed)) \/
  (decode_fails ev = true /\
   loop_body s ev = decode_failed (with_frame_count s (frame_count s + 1))) \/
  (decode_ok ev = true /\
   exists im s' img fb,
     ev_decode ev = DecodeReturns (Some im) /\
     process_stage (entered_session s) im (ev_pose ev) = (s', img, fb) /\
     ((encode_ok ev = false /\ loop_body s ev = (s', [], Continue)) \/
      (encode_ok ev = true /\ loop_body s ev = send_stage s' img fb ev))).
Proof.
  unfold loop_body, decode_fails, decode_ok, encode_ok, entered_session.
  cbv zeta.
  destruct (ev_received ev); cbn [negb andb]; [|left; split; reflexivity].
  right.
  destruct (ev_decode ev) as [|[im|]]; cbn [invalid_image negb];
    try (left; split; reflexivity).
  destruct (img_size im =? 0)%N; cbn [negb]; [left; split; reflexivity|].
  right. split; [reflexivity|].
  destruct (process_stage _ im (ev_pose ev)) as [[s' img] fb] eqn:Hp.
  exists im, s', img, fb. split; [reflexivity|]. split; [exact Hp|].
  destruct (ev_encode ev) as [|[|]]; cbn [negb]; auto.
Qed.

Lemma decode_failed_session (s : session) :
  res_session (decode_failed s) = with_error_count s (error_count s + 1) /\
  res_sent (decode_failed s) = [] /\
  (res_control (decode_failed s) = Continue \/
   res_control (decode_failed s) = Break TooManyDecodeErrors).
Proof.
  unfold decode_failed. cbn [error_count with_error_count].
  destruct (max_errors <=? error_count s + 1); cbn; auto.
Qed.

Lemma send_stage_session (s : session) (img : out_frame) (fb : string)
    (ev : frame_event) :
  res_session (send_stage s img fb ev) = s.
Proof.
  unfold send_stage.
  destruct (ev_send_bytes ev), (frame_count s mod 10 =? 0), (ev_send_text ev);
    reflexivity.
Qed.

(** What the process stage does to the session. *)
Lemma process_stage_spec (s : session) (im : image) (pose : pose_outcome) :
  let s' := fst (fst (process_stage s im pose)) in
  frame_count s' = frame_count s /\
  error_count s' = error_count s /\
  ((count s', direction s', form s') = (count s, direction s, form s) \/
   exists angles, (count s', direction s', form s') =
                  advance (count s, direction s, form s) angles) /\
  (~ (count s' == count s)%Q ->
     (form s' = 1 -> correct_reps s' = correct_reps s + 1 /\
                     incorrect_reps s' = incorrect_reps s) /\
     (form s' <> 1 -> correct_reps s' = correct_reps s /\
                      incorrect_reps s' = incorrect_reps s + 1)) /\
  ((count s' == count s)%Q ->
     correct_reps s' = correct_reps s /\ incorrect_reps s' = incorrect_reps s).
Proof.
  unfold process_stage.
  pose proof (process_frame_state (Some im) pose (count s) (direction s) (form s))
    as Hst.
  destruct (process_frame (Some im) pose (count s) (direction s) (form s))
    as [[[[img c'] d'] f'] fb].
  destruct (Qneb c' (count s)) eqn:Hne.
  - apply Qneb_true in Hne.
    destruct (Z.eqb_spec f' 1) as [Hf|Hf]; cbn [fst snd count direction form
      frame_count error_count correct_reps incorrect_reps];
      repeat split; try exact Hst; intros; try contradiction; try lia.
  - apply Qneb_false in Hne.
    cbn [fst snd count direction form
      frame_count error_count correct_reps incorrect_reps].
    repeat split; try exact Hst; intros; try contradiction; try lia.
Qed.

Lemma entered_session_fields (s : session) :
  count (entered_session s) = count s /\
  direction (entered_session s) = direction s /\
  form (entered_session s) = form s /\
  frame_count (entered_session s) = frame_count s + 1 /\
  error_count (entered_session s) = 0 /\
  correct_reps (entered_session s) = correct_reps s /\
  incorrect_reps (entered_session s) = incorrect_reps s.
Proof. repeat split. Qed.

(** The session left by an iteration: untouched apart from the two
    counters, or the outcome of the process stage. *)
Lemma loop_body_session (s : session) (ev : frame_event) :
  (exists n e, res_session (loop_body s ev)
               = with_error_count (with_frame_count s n) e) \/
  (exists im, res_session (loop_body s ev)
              = fst (fst (process_stage (entered_session s) im (ev_pose ev)))).
Proof.
  destruct (loop_body_cases s ev)
    as [[_ E] | [[_ E] | [_ (im & s' & img & fb & _ & Hp & [[_ E]|[_ E]])]]];
    rewrite E.
  - left. exists (frame_count s), (error_count s). destruct s; reflexivity.
  - left. eexists _, _.
    rewrite (proj1 (decode_failed_session _)). reflexivity.
  - right. exists im. rewrite Hp. reflexivity.
  - right. exists im. rewrite Hp, send_stage_session. reflexivity.
Qed.


(** C1. The loop tallies a half rep, where the tally should move only
    when the whole-number part of the count advances: after one
    posture-valid frame, a frame in the down position takes the count from
    0 to one half; the whole-number part has not advanced, yet the correct
    tally has gone from 0 to 1. *)
Lemma tally_moves_on_half_rep :
  count ready_session = 0%Q /\
  count (res_session (loop_body ready_session (good_frame 80 50 170)))
    = (1 # 2)%Q /\
  spec_whole_part_advanced
    (count ready_session)
    (count (res_session (loop_body ready_session (good_frame 80 50 170))))
    = false /\
  tallied ready_session
          (res_session (loop_body ready_session (good_frame 80 50 170)))
    = true /\
  correct_reps ready_session = 0 /\
  correct_reps (res_session (loop_body ready_session (good_frame 80 50 170)))
    = 1.
Proof. vm_compute. repeat split. Qed.

(** *** The rep state across a session *)

(** An iteration hands on the rep state untouched or after one call of the
    state machine. *)
Lemma loop_body_rep_state (s : session) (ev : frame_event) :
  let s' := res_session (loop_body s ev) in
  (count s', direction s', form s') = (count s, direction s, form s) \/
  exists angles, (count s', direction s', form s') =
                 advance (count s, direction s, form s) angles.
Proof.
  intros s'. subst s'.
  destruct (loop_body_session s ev) as [(n & e & ->) | (im & ->)].
  - left. reflexivity.
  - pose proof (process_stage_spec (entered_session s) im (ev_pose ev)) as H.
    cbv zeta in H. destruct H as (_ & _ & H & _). exact H.
Qed.

Lemma run_cons (s : session) (ev : frame_event) (rest : list frame_event) :
  fst (run s (ev :: rest)) = res_session (loop_body s ev) \/
  fst (run s (ev :: rest)) = fst (run (res_session (loop_body s ev)) rest).
Proof.
  cbn [run]. destruct (res_control (loop_body s ev)); cbn [fst]; auto.
Qed.

(** X16. Over a whole session the form flag, once 1, stays 1, whatever
    the later frames bring (no pose, errors, corrupt bytes included). *)
Lemma session_form_sticky (evs : list frame_event) :
  forall s : session, form s = 1 -> form (fst (run s evs)) = 1.
Proof.
  induction evs as [|ev rest IH]; intros s Hs; [exact Hs|].
  assert (H1 : form (res_session (loop_body s ev)) = 1).
  { destruct (loop_body_rep_state s ev) as [E | [a E]].
    - injection E as _ _ ->. exact Hs.
    - pose proof (advance_form_sticky (count s, direction s, form s) a Hs) as H.
      rewrite <- E in H. exact H. }
  destruct (run_cons s ev rest) as [-> | ->]; [exact H1 | now apply IH].
Qed.

(** X17. Over a whole session the count never goes down, whatever the
    frames bring. *)
Lemma session_count_monotone (evs : list frame_event) :
  forall s : session, (count s <= count (fst (run s evs)))%Q.
Proof.
  induction evs as [|ev rest IH]; intros s; [apply Qle_refl|].
  assert (H1 : (count s <= count (res_session (loop_body s ev)))%Q).
  { destruct (loop_body_rep_state s ev) as [E | [a E]].
    - injection E as -> _ _. apply Qle_refl.
    - pose proof (advance_count_cases (count s, direction s, form s) a) as H.
      rewrite <- E in H. cbn [fst snd] in H.
      destruct H as [-> | ->]; unfold half; lra. }
  destruct (run_cons s ev rest) as [-> | ->]; [exact H1|].
  eapply Qle_trans; [exact H1 | apply IH].
Qed.

(** *** Telemetry cadence *)

Lemma send_stage_text (s : session) (img : out_frame) (fb : string)
    (ev : frame_event) :
  text_sent (send_stage s img fb ev) = true <->
  frame_count s mod 10 = 0 /\ ev_send_bytes ev = true /\ ev_send_text ev = true.
Proof.
  unfold send_stage, text_sent.
  destruct (ev_send_bytes ev), (Z.eqb_spec (frame_count s mod 10) 0),
           (ev_send_text ev); cbn; intuition congruence.
Qed.

Lemma process_stage_frame_count (s s' : session) (im : image)
    (pose : pose_outcome) (img : out_frame) (fb : string) :
  process_stage s im pose = (s', img, fb) -> frame_count s' = frame_count s.
Proof.
  intros H. pose proof (process_stage_spec s im pose) as Hs.
  rewrite H in Hs. apply Hs.
Qed.

(** A text message goes out in an iteration exactly when the frame is
    delivered and its number among the received frames is a multiple of
    ten. *)
Lemma loop_body_text (s : session) (ev : frame_event) :
  text_sent (loop_body s ev) = true <->
  (frame_count s + 1) mod 10 = 0 /\ delivered ev = true.
Proof.
  unfold delivered.
  destruct (loop_body_cases s ev)
    as [[Hr E] | [[Hf E] | [Hd (im & s' & img & fb & _ & Hp & [[He E]|[He E]])]]];
    rewrite E.
  - unfold decode_ok. rewrite Hr. cbn. intuition congruence.
  - assert (Hd : decode_ok ev = false).
    { unfold decode_fails, decode_ok in *.
      destruct (ev_received ev), (ev_decode ev) as [|fr]; cbn in *;
        try congruence. rewrite Hf. reflexivity. }
    rewrite Hd. unfold text_sent.
    rewrite (proj1 (proj2 (decode_failed_session _))). cbn. intuition congruence.
  - rewrite Hd, He. cbn. intuition congruence.
  - rewrite Hd, He, send_stage_text.
    rewrite (process_stage_frame_count _ _ _ _ _ _ Hp).
    rewrite (proj1 (proj2 (proj2 (proj2 (entered_session_fields s))))).
    cbn [andb]. rewrite andb_true_iff. tauto.
Qed.

(** Every received frame is counted, decoded or not. *)
Lemma loop_body_frame_count (s : session) (ev : frame_event) :
  ev_received ev = true ->
  frame_count (res_session (loop_body s ev)) = frame_count s + 1.
Proof.
  intros Hr.
  destruct (loop_body_cases s ev)
    as [[Hr' E] | [[Hf E] | [Hd (im & s' & img & fb & _ & Hp & [[He E]|[He E]])]]];
    rewrite E.
  - congruence.
  - rewrite (proj1 (decode_failed_session _)). reflexivity.
  - cbn. rewrite (process_stage_frame_count _ _ _ _ _ _ Hp). reflexivity.
  - rewrite send_stage_session.
    rewrite (process_stage_frame_count _ _ _ _ _ _ Hp). reflexivity.
Qed.

Lemma loop_body_continue_received (s : session) (ev : frame_event) :
  res_control (loop_body s ev) = Continue -> ev_received ev = true.
Proof.
  unfold loop_body. destruct (ev_received ev); [reflexivity|].
  cbn. discriminate.
Qed.

(** C2 (amended). The frame counter advances on every received frame,
    decode-failed ones included.  In the iteration of the n-th event (from
    0), a telemetry text message is sent exactly when the running total of
    received frames is a multiple of 10 and the frame is delivered
    (decoded, encoded, both sends returning). *)
Theorem telemetry_every_tenth_received (evs : list frame_event) :
  forall (s : session) (n : nat) (ev : frame_event) (r : result),
  nth_error evs n = Some ev ->
  nth_error (iterations s evs) n = Some r ->
  (ev_received ev = true ->
     frame_count (res_session r) = frame_count s + Z.of_nat n + 1) /\
  (text_sent r = true <->
     (frame_count s + Z.of_nat n + 1) mod 10 = 0 /\ delivered ev = true).
Proof.
  induction evs as [|e0 rest IH]; intros s n ev r Hev Hr.
  - destruct n; discriminate.
  - destruct n as [|n].
    + cbn in Hev, Hr. injection Hev as ->. injection Hr as <-.
      rewrite Z.add_0_r. split.
      * apply loop_body_frame_count.
      * apply loop_body_text.
    + cbn [nth_error iterations] in Hev, Hr.
      destruct (res_control (loop_body s e0)) eqn:Hc.
      * pose proof (loop_body_continue_received s e0 Hc) as Hrecv.
        specialize (IH _ _ _ _ Hev Hr).
        rewrite (loop_body_frame_count s e0 Hrecv) in IH.
        replace (frame_count s + Z.of_nat (S n) + 1)
          with (frame_count s + 1 + Z.of_nat n + 1) by lia.
        exact IH.
      * destruct n; discriminate.
Qed.

Lemma telemetry_every_tenth_received_witness :
  nth_error one_corrupt_then_ten 9 = Some (good_frame 100 50 170) /\
  exists r : result,
    nth_error (iterations initial one_corrupt_then_ten) 9 = Some r /\
    frame_count (res_session r) = 10 /\
    text_sent r = true.
Proof.
  split; [reflexivity|].
  pose (r := nth 9 (iterations initial one_corrupt_then_ten)
                 (initial, [], Continue)).
  assert (Hr : nth_error (iterations initial one_corrupt_then_ten) 9 = Some r)
    by (vm_compute; reflexivity).
  exists r. split; [exact Hr|].
  destruct (telemetry_every_tenth_received
              one_corrupt_then_ten initial 9 (good_frame 100 50 170) r
              eq_refl Hr) as [Hcount Htext].
  split.
  - exact (Hcount eq_refl).
  - apply Htext. split; reflexivity.
Defined.


(** C2 (as stated) fails: with one corrupt frame followed by ten good
    ones, the text message goes out at the tenth received frame, when only
    nine frames have been processed, and not at the eleventh, which is the
    tenth processed one. *)
Lemma telemetry_counts_corrupt_frames :
  map text_sent (iterations initial one_corrupt_then_ten)
    = [false; false; false; false; false; false; false; false; false;
       true; false] /\
  map (spec_telemetry_due one_corrupt_then_ten) (seq 0 11)
    = [false; false; false; false; false; false; false; false; false;
       false; true] /\
  spec_processed_total (firstn 10 one_corrupt_then_ten) = 9 /\
  spec_processed_total (firstn 11 one_corrupt_then_ten) = 10.
Proof. vm_compute. repeat split. Qed.

(** *** Decode-error ceiling *)

Lemma loop_body_decode_fails (s : session) (ev : frame_event) :
  decode_fails ev = true ->
  loop_body s ev = decode_failed (with_frame_count s (frame_count s + 1)).
Proof.
  intros Hf.
  destruct (loop_body_cases s ev) as [[Hr _] | [[_ E] | [Hd _]]].
  - unfold decode_fails in Hf. rewrite Hr in Hf. discriminate.
  - exact E.
  - unfold decode_fails, decode_ok in *.
    destruct (ev_received ev), (ev_decode ev) as [|fr]; cbn in *;
      try discriminate.
    rewrite Hf in Hd. discriminate.
Qed.

Lemma after_failures_zero (s : session) : after_failures s 0 = s.
Proof.
  destruct s. unfold after_failures, with_error_count, with_frame_count.
  cbn. now rewrite !Z.add_0_r.
Qed.

Lemma after_failures_succ (s : session) (k : Z) :
  after_failures
    (with_error_count (with_frame_count s (frame_count s + 1))
                      (error_count s + 1)) k
  = after_failures s (1 + k).
Proof.
  unfold after_failures, with_error_count, with_frame_count.
  cbn [count direction form frame_count error_count correct_reps
       incorrect_reps].
  f_equal; lia.
Qed.

(** Below the ceiling a run of decode failures only moves the counters. *)
Lemma run_failures_below (evs : list frame_event) :
  forall s : session,
  all_fail evs ->
  error_count s + Z.of_nat (List.length evs) < max_errors ->
  run s evs = (after_failures s (Z.of_nat (List.length evs)), Continue).
Proof.
  unfold max_errors.
  induction evs as [|ev rest IH]; intros s Hall Hlt.
  - cbn. now rewrite after_failures_zero.
  - inversion Hall as [|? ? Hev Hrest]; subst.
    cbn [run]. rewrite (loop_body_decode_fails s ev Hev).
    unfold decode_failed. cbn [error_count with_error_count with_frame_count].
    cbn [List.length] in Hlt.
    destruct (Z.leb_spec max_errors (error_count s + 1)) as [Hge|_];
      [unfold max_errors in Hge; lia|].
    cbn [res_control res_session fst snd].
    rewrite IH; [|exact Hrest|cbn; lia].
    rewrite after_failures_succ. do 2 f_equal. cbn [List.length]. lia.
Qed.

(** The failure that brings the counter to the ceiling leaves the loop. *)
Lemma run_failures_reach (evs : list frame_event) :
  forall s : session,
  all_fail evs ->
  error_count s < max_errors ->
  error_count s + Z.of_nat (List.length evs) = max_errors ->
  snd (run s evs) = Break TooManyDecodeErrors.
Proof.
  unfold max_errors.
  induction evs as [|ev rest IH]; intros s Hall Hlt Hsum.
  - cbn in Hsum. lia.
  - inversion Hall as [|? ? Hev Hrest]; subst.
    cbn [run]. rewrite (loop_body_decode_fails s ev Hev).
    unfold decode_failed. cbn [error_count with_error_count with_frame_count].
    cbn [List.length] in Hsum.
    destruct (Z.leb_spec max_errors (error_count s + 1)) as [_|Hlt'];
      [reflexivity|].
    cbn [res_control res_session fst snd].
    unfold max_errors in Hlt'.
    apply IH; [exact Hrest | cbn; lia | cbn; lia].
Qed.

(** Nothing is sent for frames that fail to decode. *)
Lemma sent_failures (evs : list frame_event) :
  forall s : session, all_fail evs -> sent s evs = [].
Proof.
  unfold sent.
  induction evs as [|ev rest IH]; intros s Hall; [reflexivity|].
  inversion Hall as [|? ? Hev Hrest]; subst.
  cbn [iterations flat_map]. rewrite (loop_body_decode_fails s ev Hev).
  destruct (decode_failed_session (with_frame_count s (frame_count s + 1)))
    as (_ & Hs & _).
  rewrite Hs. cbn [app].
  destruct (res_control _); [|reflexivity].
  apply IH. exact Hrest.
Qed.

Lemma run_app_continue (evs rest : list frame_event) :
  forall s s' : session,
  run s evs = (s', Continue) -> run s (evs ++ rest) = run s' rest.
Proof.
  induction evs as [|ev evs IH]; intros s s' H; cbn [run app] in *.
  - injection H as ->. reflexivity.
  - destruct (res_control (loop_body s ev)); [|discriminate].
    now apply IH.
Qed.

Lemma all_fail_firstn (k : nat) (evs : list frame_event) :
  all_fail evs -> all_fail (firstn k evs).
Proof.
  unfold all_fail. intros H. revert k.
  induction H as [|ev evs Hev _ IH]; intros [|k]; cbn [firstn];
    constructor; auto.
Qed.

(** A decoded frame clears the error counter, and can leave the loop only
    through a failed send. *)
Lemma loop_body_decode_ok (s : session) (ev : frame_event) :
  decode_ok ev = true ->
  error_count (res_session (loop_body s ev)) = 0 /\
  (res_control (loop_body s ev) = Continue \/
   res_control (loop_body s ev) = Break SendFailed /\
   (ev_send_bytes ev = false \/ ev_send_text ev = false)).
Proof.
  intros Hd.
  destruct (loop_body_cases s ev)
    as [[Hr _] | [[Hf _] | [_ (im & s' & img & fb & _ & Hp & [[He E]|[He E]])]]].
  - unfold decode_ok in Hd. rewrite Hr in Hd. discriminate.
  - unfold decode_fails, decode_ok in *.
    destruct (ev_received ev), (ev_decode ev) as [|fr]; cbn in *;
      try discriminate.
    rewrite Hf in Hd. discriminate.
  - rewrite E. cbn. split; [|auto].
    pose proof (process_stage_spec (entered_session s) im (ev_pose ev)) as H.
    rewrite Hp in H. apply H.
  - rewrite E, send_stage_session. split.
    + pose proof (process_stage_spec (entered_session s) im (ev_pose ev)) as H.
      rewrite Hp in H. apply H.
    + unfold send_stage.
      destruct (ev_send_bytes ev), (frame_count s' mod 10 =? 0),
               (ev_send_text ev); cbn; auto.
Qed.

(** C4. Starting with the consecutive-error counter at zero: ten decode
    failures in a row end the session at the tenth (not earlier); nine or
    fewer followed by a frame that decodes leave the counter at zero and do
    not end the session (only a failed send of that frame could); and
    nothing is sent for the decode-failed frames. *)
Theorem decode_error_ceiling (s : session) (evs : list frame_event)
    (ev : frame_event) :
  error_count s = 0 ->
  all_fail evs ->
  sent s evs = [] /\
  (List.length evs = 10%nat ->
     snd (run s evs) = Break TooManyDecodeErrors /\
     forall k : nat, (k < 10)%nat -> snd (run s (firstn k evs)) = Continue) /\
  ((List.length evs <= 9)%nat -> decode_ok ev = true ->
     run s evs = (after_failures s (Z.of_nat (List.length evs)), Continue) /\
     error_count (fst (run s (evs ++ [ev]))) = 0 /\
     snd (run s (evs ++ [ev])) <> Break TooManyDecodeErrors /\
     (ev_send_bytes ev = true -> ev_send_text ev = true ->
        snd (run s (evs ++ [ev])) = Continue)).
Proof.
  intros H0 Hall. split; [now apply sent_failures|]. split.
  - intros Hlen. split.
    + apply run_failures_reach; unfold max_errors; try assumption; lia.
    + intros k Hk.
      rewrite run_failures_below; [reflexivity | now apply all_fail_firstn |].
      rewrite length_firstn. unfold max_errors. lia.
  - intros Hlen Hok.
    assert (Hrun : run s evs
                   = (after_failures s (Z.of_nat (List.length evs)), Continue)).
    { apply run_failures_below; [exact Hall | unfold max_errors; lia]. }
    split; [exact Hrun|].
    rewrite (run_app_continue _ [ev] _ _ Hrun). cbn [run].
    destruct (loop_body_decode_ok
                (after_failures s (Z.of_nat (List.length evs))) ev Hok)
      as [He Hc].
    destruct Hc as [Hc | [Hc Hsend]]; rewrite Hc; cbn [fst snd].
    + repeat split; try exact He; try discriminate.
    + repeat split; try exact He; try discriminate.
      intros Hb Ht. destruct Hsend; congruence.
Qed.

Lemma decode_error_ceiling_witness :
  error_count initial = 0 /\
  all_fail (repeat corrupt_frame 10) /\
  all_fail (repeat corrupt_frame 9) /\
  decode_ok (good_frame 100 50 170) = true /\
  snd (run initial (repeat corrupt_frame 10)) = Break TooManyDecodeErrors /\
  sent initial (repeat corrupt_frame 10) = [] /\
  error_count (fst (run initial (repeat corrupt_frame 9
                                   ++ [good_frame 100 50 170]))) = 0 /\
  snd (run initial (repeat corrupt_frame 9 ++ [good_frame 100 50 170]))
    = Continue.
Proof.
  assert (H10 : all_fail (repeat corrupt_frame 10))
    by (repeat constructor).
  assert (H9 : all_fail (repeat corrupt_frame 9))
    by (repeat constructor).
  assert (Hok : decode_ok (good_frame 100 50 170) = true) by reflexivity.
  destruct (decode_error_ceiling initial (repeat corrupt_frame 10)
              (good_frame 100 50 170) eq_refl H10) as (Hsent & Hten & _).
  destruct (decode_error_ceiling initial (repeat corrupt_frame 9)
              (good_frame 100 50 170) eq_refl H9) as (_ & _ & Hnine).
  assert (Hlen : (List.length (repeat corrupt_frame 9) <= 9)%nat)
    by (cbn; lia).
  destruct (Hnine Hlen Hok) as (_ & Hzero & _ & Hcont).
  pose proof (proj1 (Hten eq_refl)) as Hbreak.
  pose proof (Hcont eq_refl eq_refl) as Hgoes.
  repeat split; assumption.
Defined.


(** *** Further properties of the session loop *)

(** The process stage either leaves count, direction and both tallies
    alone, or counts one half rep with form 1 and moves the correct tally
    by one. *)
Lemma process_stage_cases (s : session) (im : image) (pose : pose_outcome) :
  let s' := fst (fst (process_stage s im pose)) in
  frame_count s' = frame_count s /\ error_count s' = error_count s /\
  ((count s' = count s /\ direction s' = direction s /\
    (form s' = form s \/ form s' = 1) /\
    correct_reps s' = correct_reps s /\ incorrect_reps s' = incorrect_reps s)
   \/
   (count s' = (count s + half)%Q /\ direction s' = 1 - direction s /\
    (direction s = 0 \/ direction s = 1) /\ form s' = 1 /\
    correct_reps s' = correct_reps s + 1 /\
    incorrect_reps s' = incorrect_reps s)).
Proof.
  pose proof (process_stage_spec s im pose) as H. cbv zeta in *.
  destruct H as (Hfc & Hec & Hst & Hne & Heq).
  split; [exact Hfc|]. split; [exact Hec|].
  destruct Hst as [E | [a E]].
  - left. injection E as Ec Ed Ef.
    assert (Hq : (count (fst (fst (process_stage s im pose))) == count s)%Q)
      by (rewrite Ec; reflexivity).
    destruct (Heq Hq). repeat split; auto.
  - destruct (advance_cases (count s) (direction s) (form s) a)
      as [(f' & Ea & Hf') | [Ea Hd]]; rewrite Ea in E.
    + left. injection E as Ec Ed Ef.
      assert (Hq : (count (fst (fst (process_stage s im pose))) == count s)%Q)
        by (rewrite Ec; reflexivity).
      destruct (Heq Hq). repeat split; auto.
      rewrite Ef. destruct Hf'; auto.
    + right. injection E as Ec Ed Ef.
      assert (Hq : ~ (count (fst (fst (process_stage s im pose)))
                      == count s)%Q)
        by (rewrite Ec; apply half_changes).
      destruct (Hne Hq) as [Hgood _]. destruct (Hgood Ef).
      repeat split; auto.
Qed.

(** The same for a whole iteration, together with what happens to the two
    counters. *)
Lemma loop_body_steps (s : session) (ev : frame_event) :
  let s' := res_session (loop_body s ev) in
  ((count s' = count s /\ direction s' = direction s /\
    (form s' = form s \/ form s' = 1) /\
    correct_reps s' = correct_reps s /\ incorrect_reps s' = incorrect_reps s)
   \/
   (count s' = (count s + half)%Q /\ direction s' = 1 - direction s /\
    (direction s = 0 \/ direction s = 1) /\ form s' = 1 /\
    correct_reps s' = correct_reps s + 1 /\
    incorrect_reps s' = incorrect_reps s)) /\
  (res_control (loop_body s ev) = Continue ->
     frame_count s' = frame_count s + 1 /\
     (error_count s' = 0 \/
      error_count s' = error_count s + 1 /\ error_count s' < max_errors)) /\
  (error_count s' = error_count s \/ error_count s' = 0 \/
   error_count s' = error_count s + 1).
Proof.
  cbv zeta.
  destruct (loop_body_cases s ev)
    as [[Hr E] | [[Hf E] | [Hd (im & s' & img & fb & _ & Hp & HE)]]].
  - rewrite E. cbn. split; [left; auto|]. split; [discriminate | auto].
  - rewrite E. unfold decode_failed.
    cbn [error_count with_error_count with_frame_count].
    destruct (Z.leb_spec max_errors (error_count s + 1));
      cbn; (split; [left; auto|]); (split; [|auto]);
      try discriminate; intros _; split; auto.
  - pose proof (process_stage_cases (entered_session s) im (ev_pose ev)) as H.
    rewrite Hp in H. cbn [fst] in H.
    destruct (entered_session_fields s) as (Ec & Ed & Ef & Efc & Ee & Eco & Ei).
    rewrite Ec, Ed, Ef, Efc, Ee, Eco, Ei in H.
    destruct H as (Hfc & Hec & Hst).
    assert (Es : res_session (loop_body s ev) = s').
    { destruct HE as [[_ E] | [_ E]]; rewrite E;
        [reflexivity | apply send_stage_session]. }
    rewrite Es. split; [exact Hst|]. split; [intros _|]; auto.
Qed.

(** The guard of line 122 fires on every change of the count, and every
    such change is a half rep returned with form 1: the correct tally goes
    up by one at each half rep, the incorrect tally stays. *)
Lemma count_change_moves_correct_tally (s : session) (ev : frame_event) :
  let s' := res_session (loop_body s ev) in
  (~ (count s' == count s)%Q ->
     count s' = (count s + half)%Q /\ form s' = 1 /\
     correct_reps s' = correct_reps s + 1 /\
     incorrect_reps s' = incorrect_reps s) /\
  ((count s' == count s)%Q ->
     correct_reps s' = correct_reps s /\ incorrect_reps s' = incorrect_reps s).
Proof.
  cbv zeta.
  destruct (loop_body_steps s ev)
    as [[(Ec & _ & _ & Eco & Ei) | (Ec & _ & _ & Ef & Eco & Ei)] _].
  - split; [|auto]. intros H. exfalso. apply H. rewrite Ec. reflexivity.
  - split; [auto|]. intros H. exfalso. rewrite Ec in H.
    exact (half_changes _ H).
Qed.

(** X9. The incorrect tally never moves: over any events, from any
    session, [incorrect_reps] is what it was at the start (0 in a session
    that starts at [initial]); the count only changes in calls that return
    form 1. *)
Theorem incorrect_tally_never_moves (evs : list frame_event) :
  forall s : session, incorrect_reps (fst (run s evs)) = incorrect_reps s.
Proof.
  induction evs as [|ev rest IH]; intros s; [reflexivity|].
  assert (H1 : incorrect_reps (res_session (loop_body s ev))
               = incorrect_reps s).
  { destruct (loop_body_steps s ev) as [[H | H] _]; apply H. }
  destruct (run_cons s ev rest) as [-> | ->]; [exact H1|].
  rewrite IH. exact H1.
Qed.

(** One iteration from a session standing at [k] half reps. *)
Lemma standing_step (s : session) (k : Z) (ev : frame_event) :
  standing s k ->
  let s' := res_session (loop_body s ev) in
  exists k' : Z,
    k <= k' <= k + 1 /\
    half_reps (count s', direction s', form s') k' /\
    correct_reps s' = k' /\ incorrect_reps s' = 0 /\
    0 <= error_count s' <= max_errors /\
    (res_control (loop_body s ev) = Continue ->
       error_count s' < max_errors /\ frame_count s' = frame_count s + 1).
Proof.
  intros (Hh & Hco & Hi & He). cbv zeta.
  destruct (loop_body_steps s ev) as (Hst & Hc & Herr).
  unfold half_reps in Hh. destruct Hh as (Hk & Hcnt & Hd & Hf & Hz).
  assert (Hbound : 0 <= error_count (res_session (loop_body s ev))
                   <= max_errors)
    by (unfold max_errors in *; lia).
  assert (Hcont : res_control (loop_body s ev) = Continue ->
            error_count (res_session (loop_body s ev)) < max_errors /\
            frame_count (res_session (loop_body s ev)) = frame_count s + 1).
  { intros C. destruct (Hc C) as [Hfc Hec]. split; [|exact Hfc].
    unfold max_errors in *. lia. }
  destruct Hst as [(Ec & Ed & Ef & Eco & Ei) | (Ec & Ed & Hd01 & Ef & Eco & Ei)].
  - exists k. split; [lia|]. split; [|repeat split; try lia; tauto].
    unfold half_reps. rewrite Ec, Ed. repeat split; try assumption.
    + destruct Ef as [-> | ->]; auto.
    + intros H0. destruct Ef as [E | E]; rewrite E in H0;
        [now apply Hz | discriminate].
  - exists (k + 1). split; [lia|]. split; [|repeat split; try lia; tauto].
    unfold half_reps. rewrite Ec, Ed, Ef. repeat split.
    + lia.
    + rewrite Hcnt, inject_Z_plus. change (inject_Z 1) with 1%Q.
      unfold half. lra.
    + rewrite Hd in *. clear - Hd01. Z.div_mod_to_equations. lia.
    + auto.
    + discriminate.
Qed.


Lemma initial_standing : standing initial 0.
Proof.
  unfold standing, half_reps, initial, max_errors. cbn.
  repeat split; auto; lia.
Qed.


(** *** What reaches the client *)

Lemma process_stage_outputs (s s' : session) (im : image)
    (pose : pose_outcome) (img : out_frame) (fb : string) :
  process_stage s im pose = (s', img, fb) ->
  img = fst (fst (fst (fst
          (process_frame (Some im) pose (count s) (direction s) (form s)))))
  /\ fb = snd (process_frame (Some im) pose (count s) (direction s) (form s)).
Proof.
  unfold process_stage.
  destruct (process_frame (Some im) pose (count s) (direction s) (form s))
    as [[[[img0 c'] d'] f'] fb0].
  destruct (Qneb c' (count s)), (f' =? 1); intros [= <- <- <-]; auto.
Qed.

Lemma frame_sent_false (ev : frame_event) :
  decode_ok ev = false \/ encode_ok ev = false \/ ev_send_bytes ev = false ->
  frame_sent ev = false.
Proof.
  unfold frame_sent.
  destruct (decode_ok ev), (encode_ok ev), (ev_send_bytes ev);
    intuition congruence.
Qed.

Lemma decode_fails_not_ok (ev : frame_event) :
  decode_fails ev = true -> decode_ok ev = false.
Proof.
  unfold decode_fails, decode_ok.
  destruct (ev_received ev), (ev_decode ev) as [|fr]; cbn; try congruence.
  intros ->. reflexivity.
Qed.

(** The messages of one iteration: none unless the binary frame is sent;
    otherwise the frame produced by the pipeline, followed on every tenth
    received frame by the JSON record built from the session as it is
    after this frame. *)
Lemma loop_body_sent (s : session) (ev : frame_event) :
  let r := loop_body s ev in
  let s' := res_session r in
  (frame_sent ev = false /\ res_sent r = []) \/
  (frame_sent ev = true /\
   exists im,
     ev_decode ev = DecodeReturns (Some im) /\
     let out := process_frame (Some im) (ev_pose ev)
                              (count s) (direction s) (form s) in
     let json_data :=
       {| t_count := py_int (count s'); t_feedback := snd out;
          t_form := form s'; t_correct_reps := correct_reps s';
          t_incorrect_reps := incorrect_reps s' |} in
     (res_sent r = [Binary (fst (fst (fst (fst out))))] /\
      text_sent r = false) \/
     (res_sent r = [Binary (fst (fst (fst (fst out)))); Text json_data] /\
      text_sent r = true)).
Proof.
  cbv zeta.
  destruct (loop_body_cases s ev)
    as [[Hr E] | [[Hf E] | [Hd (im & s' & img & fb & Hdec & Hp & HE)]]].
  - left. rewrite E. split; [|reflexivity].
    apply frame_sent_false. left. unfold decode_ok. rewrite Hr. reflexivity.
  - left. rewrite E. split.
    + apply frame_sent_false. left. now apply decode_fails_not_ok.
    + apply decode_failed_session.
  - destruct HE as [[He E] | [He E]].
    + left. rewrite E. split; [|reflexivity].
      apply frame_sent_false. auto.
    + destruct (process_stage_outputs _ _ _ _ _ _ Hp) as [Eimg Efb].
      destruct (entered_session_fields s) as (Ec & Ed & Ef & _).
      rewrite Ec, Ed, Ef in Eimg, Efb.
      rewrite E, send_stage_session. unfold frame_sent, send_stage, text_sent.
      rewrite Hd, He. cbn [andb].
      destruct (ev_send_bytes ev); [|left; split; reflexivity].
      right. split; [reflexivity|]. exists im. split; [exact Hdec|].
      rewrite <- Eimg, <- Efb.
      destruct (frame_count s' mod 10 =? 0), (ev_send_text ev); cbn; auto.
Qed.

(** X11. The telemetry record describes the session as it is after the
    frame it accompanies: its count is the integer part of the updated
    count, its form and tallies are the updated ones, and its feedback is
    the one the pipeline returned for this frame. *)
Theorem telemetry_reports_updated_state (s : session) (ev : frame_event)
    (t : telemetry) :
  In (Text t) (res_sent (loop_body s ev)) ->
  let s' := res_session (loop_body s ev) in
  t_count t = py_int (count s') /\ t_form t = form s' /\
  t_correct_reps t = correct_reps s' /\
  t_incorrect_reps t = incorrect_reps s' /\
  exists im,
    ev_decode ev = DecodeReturns (Some im) /\
    t_feedback t = snd (process_frame (Some im) (ev_pose ev)
                                      (count s) (direction s) (form s)).
Proof.
  cbv zeta. intros Hin.
  destruct (loop_body_sent s ev) as [[_ E] | [_ (im & Hdec & [[E _] | [E _]])]];
    rewrite E in Hin; cbn in Hin.
  - contradiction.
  - destruct Hin as [H | []]. discriminate.
  - destruct Hin as [H | [H | []]]; [discriminate|].
    injection H as <-. cbn. repeat split. exists im. auto.
Qed.

Lemma telemetry_reports_updated_state_witness :
  exists t : telemetry,
    In (Text t) (res_sent (loop_body (with_frame_count ready_session 9)
                                     (good_frame 80 50 170))) /\
    t_count t = 0 /\ t_correct_reps t = 1.
Proof.
  eexists. split; [right; left; reflexivity|].
  pose proof (telemetry_reports_updated_state
                (with_frame_count ready_session 9) (good_frame 80 50 170) _
                (or_intror (or_introl eq_refl))) as H.
  cbv zeta in H. destruct H as (Hc & _ & Hco & _).
  split; [exact Hc | exact Hco].
Defined.

Lemma sent_cons (s : session) (ev : frame_event) (rest : list frame_event) :
  sent s (ev :: rest)
  = res_sent (loop_body s ev) ++
    match res_control (loop_body s ev) with
    | Break _ => []
    | Continue => sent (res_session (loop_body s ev)) rest
    end.
Proof.
  unfold sent. cbn [iterations flat_map].
  destruct (res_control (loop_body s ev)); reflexivity.
Qed.

Lemma texts_app (l1 l2 : list message) :
  texts (l1 ++ l2) = texts l1 + texts l2.
Proof. unfold texts. rewrite filter_app, length_app. lia. Qed.

Lemma binaries_app (l1 l2 : list message) :
  binaries (l1 ++ l2) = binaries l1 + binaries l2.
Proof. unfold binaries. rewrite filter_app, length_app. lia. Qed.

(** Message counts of one iteration. *)
Lemma loop_body_counts (s : session) (ev : frame_event) :
  binaries (res_sent (loop_body s ev))
    = (if frame_sent ev then 1 else 0) /\
  texts (res_sent (loop_body s ev))
    = (if text_sent (loop_body s ev) then 1 else 0) /\
  (text_sent (loop_body s ev) = true -> frame_sent ev = true).
Proof.
  destruct (loop_body_sent s ev)
    as [[Hf E] | [Hf (im & _ & [[E T] | [E T]])]];
    rewrite ?T, Hf, E; cbn; repeat split; auto;
    unfold text_sent; rewrite E; cbn; auto.
Qed.

(** X12. Telemetry is throttled: over any events the number of telemetry
    records sent is at most a tenth of the frames received; precisely, ten
    times that number is at most [frame_count mod 10] at the start plus
    the number of events. *)
Theorem telemetry_throttled (evs : list frame_event) :
  forall s : session,
  10 * texts (sent s evs)
  <= frame_count s mod 10 + Z.of_nat (List.length evs).
Proof.
  induction evs as [|ev rest IH]; intros s.
  - unfold sent, texts. cbn. Z.div_mod_to_equations. lia.
  - rewrite sent_cons, texts_app. cbn [List.length]. rewrite Nat2Z.inj_succ.
    destruct (loop_body_counts s ev) as (_ & Ht & _). rewrite Ht.
    pose proof (loop_body_text s ev) as Htext.
    destruct (res_control (loop_body s ev)) eqn:C.
    + pose proof (loop_body_frame_count s ev
                    (loop_body_continue_received s ev C)) as Hfc.
      specialize (IH (res_session (loop_body s ev))). rewrite Hfc in IH.
      destruct (text_sent (loop_body s ev)).
      * destruct (proj1 Htext eq_refl) as [Hm _].
        revert IH Hm. generalize (texts (sent (res_session (loop_body s ev)) rest)).
        intros n IH Hm. Z.div_mod_to_equations. lia.
      * revert IH. generalize (texts (sent (res_session (loop_body s ev)) rest)).
        intros n IH. Z.div_mod_to_equations. lia.
    + change (texts []) with 0.
      destruct (text_sent (loop_body s ev)).
      * destruct (proj1 Htext eq_refl) as [Hm _].
        revert Hm. Z.div_mod_to_equations. lia.
      * Z.div_mod_to_equations. lia.
Qed.

(** X13. One binary frame per frame that got through: over any events the
    number of binary messages sent is at most the number of events whose
    frame was decoded, encoded and sent, with equality while the loop is
    still running; and there are never more telemetry records than binary
    frames. *)
Theorem one_binary_per_sent_frame (evs : list frame_event) :
  forall s : session,
  texts (sent s evs) <= binaries (sent s evs) /\
  binaries (sent s evs) <= Z.of_nat (List.length (filter frame_sent evs)) /\
  (snd (run s evs) = Continue ->
     binaries (sent s evs) = Z.of_nat (List.length (filter frame_sent evs))).
Proof.
  induction evs as [|ev rest IH]; intros s.
  - unfold sent, texts, binaries. cbn. repeat split; lia.
  - rewrite sent_cons, texts_app, binaries_app. cbn [filter run].
    destruct (loop_body_counts s ev) as (Hb & Ht & Himp). rewrite Hb, Ht.
    assert (H01 : (if text_sent (loop_body s ev) then 1 else 0)
                  <= (if frame_sent ev then 1 else 0)).
    { destruct (text_sent (loop_body s ev)); [rewrite Himp by reflexivity|];
        destruct (frame_sent ev); lia. }
    destruct (res_control (loop_body s ev)) eqn:C.
    + destruct (IH (res_session (loop_body s ev))) as (I1 & I2 & I3).
      destruct (frame_sent ev); cbn [List.length];
        rewrite ?Nat2Z.inj_succ; repeat split; try lia;
        intros R; specialize (I3 R); lia.
    + change (texts []) with 0. change (binaries []) with 0.
      destruct (frame_sent ev); cbn [List.length snd];
        rewrite ?Nat2Z.inj_succ; repeat split; try lia; discriminate.
Qed.



Lemma one_binary_per_sent_frame_witness :
  snd (run initial one_corrupt_then_ten) = Continue /\
  binaries (sent initial one_corrupt_then_ten) = 10.
Proof.
  assert (H : snd (run initial one_corrupt_then_ten) = Continue)
    by reflexivity.
  split; [exact H|].
  exact (proj2 (proj2 (one_binary_per_sent_frame
                         one_corrupt_then_ten initial)) H).
Defined.

Lemma session_form_sticky_witness :
  form ready_session = 1 /\
  form (fst (run ready_session one_corrupt_then_ten)) = 1.
Proof.
  assert (H : form ready_session = 1) by reflexivity.
  split; [exact H|].
  exact (session_form_sticky one_corrupt_then_ten ready_session H).
Defined.

Lemma process_stage_state (s s' : session) (im : image)
    (pose : pose_outcome) (img : out_frame) (fb : string) :
  process_stage s im pose = (s', img, fb) ->
  let out := process_frame (Some im) pose (count s) (direction s) (form s) in
  count s' = snd (fst (fst (fst out))) /\
  direction s' = snd (fst (fst out)) /\
  form s' = snd (fst out) /\
  frame_count s' = frame_count s /\ error_count s' = error_count s.
Proof.
  unfold process_stage.
  destruct (process_frame (Some im) pose (count s) (direction s) (form s))
    as [[[[img0 c'] d'] f'] fb0].
  destruct (Qneb c' (count s)), (f' =? 1); intros [= <- <- <-]; cbn; auto.
Qed.

(** X15. A frame dropped at encoding still counts: when a frame decodes
    but cannot be encoded, nothing is sent and the loop goes on, yet the
    rep state returned by the pipeline for that frame is adopted, the
    frame is counted and the error counter is cleared. *)
Theorem dropped_frame_still_counts (s : session) (ev : frame_event)
    (im : image) :
  ev_received ev = true ->
  ev_decode ev = DecodeReturns (Some im) ->
  img_size im <> 0%N ->
  encode_ok ev = false ->
  let s' := res_session (loop_body s ev) in
  let out := process_frame (Some im) (ev_pose ev)
                           (count s) (direction s) (form s) in
  res_sent (loop_body s ev) = [] /\
  res_control (loop_body s ev) = Continue /\
  count s' = snd (fst (fst (fst out))) /\
  direction s' = snd (fst (fst out)) /\
  form s' = snd (fst out) /\
  frame_count s' = frame_count s + 1 /\
  error_count s' = 0.
Proof.
  intros Hr Hdec Hsize Henc. cbv zeta.
  destruct (loop_body_cases s ev)
    as [[Hr' _] | [[Hf _] | [_ (im' & s' & img & fb & Hdec' & Hp & HE)]]].
  - congruence.
  - unfold decode_fails in Hf. rewrite Hr, Hdec in Hf. cbn in Hf.
    apply N.eqb_eq in Hf. contradiction.
  - rewrite Hdec in Hdec'. injection Hdec' as <-.
    destruct HE as [[_ E] | [He _]]; [|congruence].
    rewrite E. cbn [res_sent res_control res_session fst snd].
    pose proof (process_stage_state _ _ _ _ _ _ Hp) as H. cbv zeta in H.
    destruct (entered_session_fields s) as (Ec & Ed & Ef & Efc & Ee & _).
    rewrite Ec, Ed, Ef, Efc, Ee in H.
    destruct H as (H1 & H2 & H3 & H4 & H5). repeat split; assumption.
Qed.

Lemma dropped_frame_still_counts_witness :
  count (res_session
           (loop_body ready_session
              {| ev_received := true;
                 ev_decode := DecodeReturns (Some sample_image);
                 ev_pose := PoseLandmarks [(12%nat, 0, 0)] (Angles 80 50 170);
                 ev_encode := EncodeReturns false;
                 ev_send_bytes := true;
                 ev_send_text := true |}))
  = (0 + half)%Q.
Proof.
  assert (Hsize : img_size sample_image <> 0%N) by (cbn; discriminate).
  destruct (dropped_frame_still_counts ready_session
              {| ev_received := true;
                 ev_decode := DecodeReturns (Some sample_image);
                 ev_pose := PoseLandmarks [(12%nat, 0, 0)] (Angles 80 50 170);
                 ev_encode := EncodeReturns false;
                 ev_send_bytes := true;
                 ev_send_text := true |}
              sample_image eq_refl eq_refl Hsize eq_refl)
    as (_ & _ & Hc & _).
  exact Hc.
Defined.

End SessionFacts.
